(** * The raylib sample viewer: [main.c] and [main.cpp]

    Both programs open a window, build a camera and run the classic raylib
    frame loop [while (!WindowShouldClose()) { ... }] until the window is
    asked to close.  Every statement of either [main] is a call into raylib,
    so the programs are embedded as interaction trees over the raylib calls
    they make: the tree is the program text, the environment (the windowing
    system, the user's mouse and keyboard) answers the two calls that return
    something, and a run is the list of calls made together with the answers
    received. *)

From Stdlib Require Import ZArith List String SpecFloat Lia.
From ITree Require Import ITree.
Import ListNotations ITreeNotations.
Local Open Scope Z_scope.
Local Open Scope string_scope.
Local Open Scope list_scope.
Local Open Scope itree_scope.

Set Implicit Arguments.

(* ===================================================================== *)
(** ** Data: the raylib value types the programs use                      *)
(* ===================================================================== *)

(** A C [float] is an IEEE-754 binary32 value.  The programs only write
    literals and pass them on; a literal [m * 2^e] is rounded into binary32
    (24 bits of precision, maximal exponent 128). *)
Definition float : Type := spec_float.

Definition float_lit (m e : Z) : float := binary_normalize 24 128 m e false.

Module F.
Definition zero : float := Eval vm_compute in float_lit 0 0.        (* 0.0f  *)
Definition one : float := Eval vm_compute in float_lit 1 0.         (* 1.0f  *)
Definition two : float := Eval vm_compute in float_lit 2 0.         (* 2.0f  *)
Definition five : float := Eval vm_compute in float_lit 5 0.        (* 5.0f, 5.f   *)
Definition ten : float := Eval vm_compute in float_lit 10 0.        (* 10.0f, 10.f *)
Definition seventy_five : float := Eval vm_compute in float_lit 75 0. (* 75.0f *)
End F.

(** [Vector3], [Color] and [Camera3D] are plain structs of raylib. *)
Record Vector3 : Type := mkVector3 { x : float; y : float; z : float }.

(** Four [unsigned char] channels. *)
Record Color : Type := mkColor { r : Z; g : Z; b : Z; a : Z }.

Record Camera3D : Type := mkCamera3D {
  position : Vector3;
  target : Vector3;
  up : Vector3;
  fovy : float;
  projection : Z
}.

(** Field assignment [camera.f = v], as [main.cpp] initialises its camera. *)
Definition set_target (c : Camera3D) (v : Vector3) : Camera3D :=
  mkCamera3D (position c) v (up c) (fovy c) (projection c).
Definition set_position (c : Camera3D) (v : Vector3) : Camera3D :=
  mkCamera3D v (target c) (up c) (fovy c) (projection c).
Definition set_up (c : Camera3D) (v : Vector3) : Camera3D :=
  mkCamera3D (position c) (target c) v (fovy c) (projection c).
Definition set_fovy (c : Camera3D) (f : float) : Camera3D :=
  mkCamera3D (position c) (target c) (up c) f (projection c).
Definition set_projection (c : Camera3D) (p : Z) : Camera3D :=
  mkCamera3D (position c) (target c) (up c) (fovy c) p.

(** The constants the programs take from [raylib.h].  The header is not
    part of the repository, so their values are an interface: everything
    below holds for whatever the header defines them to be. *)
Class RaylibHeader : Type := {
  FLAG_WINDOW_RESIZABLE : Z;
  CAMERA_PERSPECTIVE : Z;
  CAMERA_FREE : Z;
  GRAY : Color;
  RED : Color
}.

(** The values raylib 5 gives them, for running the programs. *)
Definition raylib5 : RaylibHeader := {|
  FLAG_WINDOW_RESIZABLE := 4;
  CAMERA_PERSPECTIVE := 0;
  CAMERA_FREE := 1;
  GRAY := mkColor 130 130 130 255;
  RED := mkColor 230 41 55 255
|}.

(* ===================================================================== *)
(** ** The raylib calls                                                    *)
(* ===================================================================== *)

(** One event per raylib function the programs call, indexed by what the
    call gives back.  [WindowShouldClose] returns a [bool];
    [UpdateCamera] takes the camera by pointer and may rewrite it, so it
    gives back the camera it leaves behind; every other call takes its
    arguments by value and returns [void]. *)
Variant raylibE : Type -> Type :=
| SetConfigFlags (flags : Z) : raylibE unit
| InitWindow (width height : Z) (title : string) : raylibE unit
| SetTargetFPS (fps : Z) : raylibE unit
| WindowShouldClose : raylibE bool
| UpdateCamera (camera : Camera3D) (mode : Z) : raylibE Camera3D
| BeginDrawing : raylibE unit
| ClearBackground (color : Color) : raylibE unit
| BeginMode3D (camera : Camera3D) : raylibE unit
| DrawCube (position : Vector3) (width height length : float) (color : Color)
    : raylibE unit
| DrawGrid (slices : Z) (spacing : float) : raylibE unit
| EndMode3D : raylibE unit
| DrawText (text : string) (posX posY fontSize : Z) (color : Color)
    : raylibE unit
| EndDrawing : raylibE unit
| CloseWindow : raylibE unit.

(** A statement [f(args);] of the program performs the call. *)
Definition perform {X : Type} (e : raylibE X) : itree raylibE X :=
  ITree.trigger e.

(** [while (cond) body], with the loop's mutable locals as the state [St]:
    the condition is evaluated before every iteration, and the body runs
    only when it holds. *)
Definition while {E : Type -> Type} {St : Type}
    (cond : itree E bool) (body : St -> itree E St) : St -> itree E St :=
  ITree.iter (fun s : St =>
    c <- cond;;
    if c : bool then s' <- body s;; Ret (inl s') else Ret (inr s)).

(* ===================================================================== *)
(** ** The two programs                                                    *)
(* ===================================================================== *)

Section Programs.
Context {hdr : RaylibHeader}.

(** [main.c], with the initialiser of its local [camera] (lines 14-20)
    left open. *)
Definition main_c_with (initialiser : Camera3D) : itree raylibE Z :=
  let screenWidth := 800 in
  let screenHeight := 450 in
  perform (SetConfigFlags FLAG_WINDOW_RESIZABLE);;
  perform (InitWindow screenWidth screenHeight "Raylib Test");;
  perform (SetTargetFPS 60);;
  let camera := initialiser in
  let cube_position := mkVector3 F.zero F.zero F.zero in
  _ <- while (close <- perform WindowShouldClose;; Ret (negb close))
    (fun camera =>
       camera <- perform (UpdateCamera camera CAMERA_FREE);;
       perform BeginDrawing;;
       perform (ClearBackground GRAY);;
       perform (BeginMode3D camera);;
       perform (DrawCube cube_position F.two F.two F.two RED);;
       perform (DrawGrid 10 F.one);;
       perform EndMode3D;;
       perform (DrawText "Test" 10 10 16 (mkColor 255 255 255 255));;
       perform EndDrawing;;
       Ret camera)
    camera;;
  perform CloseWindow;;
  Ret 0.

(** The camera [main.c] starts from. *)
Definition camera_c : Camera3D := {|
  target := mkVector3 F.zero F.zero F.zero;
  position := mkVector3 F.ten F.ten F.ten;
  up := mkVector3 F.zero F.one F.zero;
  fovy := F.seventy_five;
  projection := CAMERA_PERSPECTIVE
|}.

(** [main.c] *)
Definition main_c : itree raylibE Z := main_c_with camera_c.

(** [main.cpp], with the value of its local [camera] after lines 14-19
    left open. *)
Definition main_cpp_with (initialised : Camera3D) : itree raylibE Z :=
  let screenWidth := 800 in
  let screenHeight := 450 in
  perform (SetConfigFlags FLAG_WINDOW_RESIZABLE);;
  perform (InitWindow screenWidth screenHeight "Raylib Test");;
  perform (SetTargetFPS 60);;
  let camera := initialised in
  let cube_position := mkVector3 F.zero F.zero F.zero in
  _ <- while (close <- perform WindowShouldClose;; Ret (negb close))
    (fun camera =>
       camera <- perform (UpdateCamera camera CAMERA_FREE);;
       perform BeginDrawing;;
       perform (ClearBackground GRAY);;
       perform (BeginMode3D camera);;
       perform (DrawCube cube_position F.two F.two F.two RED);;
       perform (DrawGrid 10 F.one);;
       perform EndMode3D;;
       perform (DrawText "Test" 10 10 16 (mkColor 255 255 255 255));;
       perform EndDrawing;;
       Ret camera)
    camera;;
  perform CloseWindow;;
  Ret 0.

(** The camera [main.cpp] starts from.  [Camera3D camera;] leaves the
    struct with indeterminate contents, here the argument; the five
    assignments that follow overwrite every field. *)
Definition camera_cpp (indeterminate : Camera3D) : Camera3D :=
  let camera := indeterminate in
  let camera := set_target camera (mkVector3 F.zero F.zero F.zero) in
  let camera := set_position camera (mkVector3 F.five F.five F.five) in
  let camera := set_up camera (mkVector3 F.zero F.one F.zero) in
  let camera := set_fovy camera F.seventy_five in
  let camera := set_projection camera CAMERA_PERSPECTIVE in
  camera.

(** [main.cpp] *)
Definition main_cpp (indeterminate : Camera3D) : itree raylibE Z :=
  main_cpp_with (camera_cpp indeterminate).

End Programs.

(* ===================================================================== *)
(** ** Runs                                                                *)
(* ===================================================================== *)

(** A call as seen from outside: the raylib function with its arguments,
    and what it returned. *)
Inductive call : Type :=
| Call : forall X : Type, raylibE X -> X -> call.
Arguments Call {X} _ _.

Definition trace : Type := list call.

(** [runs t tr v]: the program [t] can make exactly the calls [tr], in this
    order and with these answers, and then return [v].  The environment is
    free to answer as it likes. *)
Inductive runs' {R : Type} : itree' raylibE R -> trace -> R -> Prop :=
| runs_Ret (v : R) : runs' (RetF v) [] v
| runs_Tau (t : itree raylibE R) tr v :
    runs' (observe t) tr v -> runs' (TauF t) tr v
| runs_Vis (X : Type) (e : raylibE X) (k : X -> itree raylibE R) (ans : X) tr v :
    runs' (observe (k ans)) tr v -> runs' (VisF e k) (Call e ans :: tr) v.

Definition runs {R : Type} (t : itree raylibE R) (tr : trace) (v : R) : Prop :=
  runs' (observe t) tr v.

(* ===================================================================== *)
(** ** Runs, by height                                                     *)
(* ===================================================================== *)

(** [runsN n t tr v]: a run of [t] whose derivation has at most [n] nodes.
    It is [runs] with the induction made explicit, so that a run of a loop
    can be cut into the runs of its iterations. *)
Fixpoint runsN {R : Type} (n : nat) (t : itree raylibE R) (tr : trace) (v : R)
    : Prop :=
  match n with
  | O => False
  | S n' =>
      match observe t with
      | RetF v' => tr = [] /\ v = v'
      | TauF t' => runsN n' t' tr v
      | VisF e k =>
          exists ans tr', tr = Call e ans :: tr' /\ runsN n' (k ans) tr' v
      end
  end.

(** A run of [while cond body] from state [s]: the condition fails at once,
    or it holds, the body runs, and the loop runs on from the new state. *)
Inductive while_runs {St : Type} (cond : itree raylibE bool)
    (body : St -> itree raylibE St) : St -> trace -> St -> Prop :=
| while_exit s tr :
    runs cond tr false -> while_runs cond body s tr s
| while_iterate s tr1 tr2 s1 tr3 s2 :
    runs cond tr1 true -> runs (body s) tr2 s1 ->
    while_runs cond body s1 tr3 s2 ->
    while_runs cond body s (tr1 ++ tr2 ++ tr3) s2.

(* ===================================================================== *)
(** ** Looking at a run                                                    *)
(* ===================================================================== *)

(** The raylib function a call goes to. *)
Definition fn_name {X : Type} (e : raylibE X) : string :=
  match e with
  | SetConfigFlags _ => "SetConfigFlags"
  | InitWindow _ _ _ => "InitWindow"
  | SetTargetFPS _ => "SetTargetFPS"
  | WindowShouldClose => "WindowShouldClose"
  | UpdateCamera _ _ => "UpdateCamera"
  | BeginDrawing => "BeginDrawing"
  | ClearBackground _ => "ClearBackground"
  | BeginMode3D _ => "BeginMode3D"
  | DrawCube _ _ _ _ _ => "DrawCube"
  | DrawGrid _ _ => "DrawGrid"
  | EndMode3D => "EndMode3D"
  | DrawText _ _ _ _ _ => "DrawText"
  | EndDrawing => "EndDrawing"
  | CloseWindow => "CloseWindow"
  end.

Definition name (c : call) : string :=
  match c with Call e _ => fn_name e end.

Definition names (tr : trace) : list string := map name tr.

(** The calls of a run that go to function [fn], and how many there are. *)
Definition calls_to (fn : string) (tr : trace) : trace :=
  filter (fun c => String.eqb (name c) fn) tr.

Definition count_calls (fn : string) (tr : trace) : nat :=
  List.length (calls_to fn tr).

(** What [WindowShouldClose] answered, if the call is one. *)
Definition poll_answer (c : call) : option bool :=
  match c with
  | Call e ans =>
      match e in raylibE X return X -> option bool with
      | WindowShouldClose => fun closing => Some closing
      | _ => fun _ => None
      end ans
  end.

(** The camera [UpdateCamera] was handed, and the camera it left behind. *)
Definition camera_given (c : call) : option Camera3D :=
  match c with
  | Call e _ =>
      match e with
      | UpdateCamera camera _ => Some camera
      | _ => None
      end
  end.

Definition camera_left (c : call) : option Camera3D :=
  match c with
  | Call e ans =>
      match e in raylibE X return X -> option Camera3D with
      | UpdateCamera _ _ => fun camera' => Some camera'
      | _ => fun _ => None
      end ans
  end.

(** The camera a 3D scope was opened with. *)
Definition camera_drawn (c : call) : option Camera3D :=
  match c with
  | Call e _ =>
      match e with
      | BeginMode3D camera => Some camera
      | _ => None
      end
  end.

(** Collect an observation over a run, in order. *)
Fixpoint collect {A : Type} (f : call -> option A) (tr : trace) : list A :=
  match tr with
  | [] => []
  | c :: tr' =>
      match f c with
      | Some o => o :: collect f tr'
      | None => collect f tr'
      end
  end.

Definition polls (tr : trace) : list bool := collect poll_answer tr.
Definition cameras_given (tr : trace) : list Camera3D := collect camera_given tr.
Definition cameras_left (tr : trace) : list Camera3D := collect camera_left tr.
Definition cameras_drawn (tr : trace) : list Camera3D := collect camera_drawn tr.

(** A run cut at its close polls: the calls made before the first poll,
    and for every poll its answer with the calls made after it, up to the
    next poll.  Each such piece is one pass through the head of the loop. *)
Fixpoint cut_at_polls (tr : trace) : trace * list (bool * trace) :=
  match tr with
  | [] => ([], [])
  | c :: tr' =>
      let (calls, later) := cut_at_polls tr' in
      match poll_answer c with
      | Some closing => ([], (closing, calls) :: later)
      | None => (c :: calls, later)
      end
  end.

Definition startup (tr : trace) : trace := fst (cut_at_polls tr).
Definition passes (tr : trace) : list (bool * trace) := snd (cut_at_polls tr).

(** The iterations of the loop body: the passes whose poll let the body
    run. *)
Definition iterations (tr : trace) : list trace :=
  map snd (filter (fun p => negb (fst p)) (passes tr)).

(** [in_order fns ns]: the names [fns] occur in [ns], in this order. *)
Fixpoint in_order (fns ns : list string) : bool :=
  match fns, ns with
  | [], _ => true
  | _ :: _, [] => false
  | fn :: fns', n :: ns' =>
      if String.eqb fn n then in_order fns' ns' else in_order fns ns'
  end.

(** A full frame: clear, the 3D draw, the overlay draw and the present, in
    this order. *)
Definition full_frame (calls : trace) : bool :=
  in_order
    ["ClearBackground"; "BeginMode3D"; "DrawCube"; "DrawGrid"; "EndMode3D";
     "DrawText"; "EndDrawing"]
    (names calls).

(** The number of full frames a run draws. *)
Definition frames_drawn (tr : trace) : nat :=
  List.length (filter (fun p => full_frame (snd p)) (passes tr)).

(** Position of the first call to [fn]. *)
Fixpoint first_call (fn : string) (ns : list string) : option nat :=
  match ns with
  | [] => None
  | n :: ns' =>
      if String.eqb n fn then Some O
      else option_map S (first_call fn ns')
  end.

(** Walking through the calls with the 3D scope open or not: no text is
    drawn while it is open, it is not opened twice, and it is closed at the
    end. *)
Fixpoint text_outside_3d (open : bool) (ns : list string) : bool :=
  match ns with
  | [] => negb open
  | n :: ns' =>
      if String.eqb n "BeginMode3D" then negb open && text_outside_3d true ns'
      else if String.eqb n "EndMode3D" then open && text_outside_3d false ns'
      else if String.eqb n "DrawText" then negb open && text_outside_3d open ns'
      else text_outside_3d open ns'
  end.

(* ===================================================================== *)
(** ** Running a program against an environment                            *)
(* ===================================================================== *)

(** The two things the outside world decides: whether the [k]-th close
    poll (counting from 0) reports a close request, and what the [k]-th
    camera update does to the camera it is handed. *)
Record Env : Type := mkEnv {
  close_requested : nat -> bool;
  camera_moved : nat -> Camera3D -> Z -> Camera3D
}.

(** The environment's answer to a call, after the calls [done]. *)
Definition answer (env : Env) (done : trace) {X : Type} (e : raylibE X) : X :=
  match e in raylibE X return X with
  | WindowShouldClose => close_requested env (List.length (polls done))
  | UpdateCamera camera mode =>
      camera_moved env (List.length (cameras_left done)) camera mode
  | _ => tt
  end.

(** [fuel] bounds the number of steps; [None] means the program has not
    returned within them. *)
Fixpoint exec {R : Type} (fuel : nat) (env : Env) (done : trace)
    (t : itree raylibE R) : option (trace * R) :=
  match fuel with
  | O => None
  | S fuel' =>
      match observe t with
      | RetF v => Some (done, v)
      | TauF t' => exec fuel' env done t'
      | VisF e k =>
          let ans := answer env done e in
          exec fuel' env (done ++ [Call e ans]) (k ans)
      end
  end.

(** A run in which every answer is the one [env] gives. *)
Fixpoint answered_by (env : Env) (done tr : trace) : Prop :=
  match tr with
  | [] => True
  | c :: tr' =>
      match c with
      | Call e ans => ans = answer env done e
      end /\ answered_by env (done ++ [c]) tr'
  end.

(* ===================================================================== *)
(** ** The shape of a run                                                  *)
(* ===================================================================== *)

(** The lists of calls below are what the runs of the two programs will be
    shown to be; the programs are not defined from them. *)

Section Shapes.
Context {hdr : RaylibHeader}.

(** The calls made before the loop is entered. *)
Definition opening : trace :=
  [ Call (SetConfigFlags FLAG_WINDOW_RESIZABLE) tt;
    Call (InitWindow 800 450 "Raylib Test") tt;
    Call (SetTargetFPS 60) tt ].

(** The calls of one loop body, entered with camera [given], when the
    camera update leaves [moved]. *)
Definition frame_calls (given moved : Camera3D) : trace :=
  [ Call (UpdateCamera given CAMERA_FREE) moved;
    Call BeginDrawing tt;
    Call (ClearBackground GRAY) tt;
    Call (BeginMode3D moved) tt;
    Call (DrawCube (mkVector3 F.zero F.zero F.zero) F.two F.two F.two RED) tt;
    Call (DrawGrid 10 F.one) tt;
    Call EndMode3D tt;
    Call (DrawText "Test" 10 10 16 (mkColor 255 255 255 255)) tt;
    Call EndDrawing tt ].

(** The loop, started with camera [camera], when the successive camera
    updates leave [cams]: one poll answering false and one body per
    element, then the poll that answers true. *)
Fixpoint loop_calls (camera : Camera3D) (cams : list Camera3D) : trace :=
  match cams with
  | [] => [Call WindowShouldClose true]
  | moved :: cams' =>
      Call WindowShouldClose false :: frame_calls camera moved
        ++ loop_calls moved cams'
  end.

Definition run_calls (camera : Camera3D) (cams : list Camera3D) : trace :=
  opening ++ loop_calls camera cams ++ [Call CloseWindow tt].

(** The frames of the loop, one per camera update, and its passes. *)
Fixpoint loop_frames (camera : Camera3D) (cams : list Camera3D)
    : list trace :=
  match cams with
  | [] => []
  | moved :: cams' => frame_calls camera moved :: loop_frames moved cams'
  end.

Definition loop_passes (camera : Camera3D) (cams : list Camera3D)
    : list (bool * trace) :=
  map (fun calls => (false, calls)) (loop_frames camera cams)
    ++ [(true, [Call CloseWindow tt])].

(** The cameras the first [n] updates of [env] leave, when the updates are
    numbered from [k] on and the first is handed [camera]. *)
Fixpoint cameras_of (env : Env) (k : nat) (camera : Camera3D) (n : nat)
    : list Camera3D :=
  match n with
  | O => []
  | S n' =>
      let moved := camera_moved env k camera CAMERA_FREE in
      moved :: cameras_of env (S k) moved n'
  end.

(** The condition and the body of the loop, as both programs write
    them. *)
Definition loop_cond : itree raylibE bool :=
  close <- perform WindowShouldClose;; Ret (negb close).

Definition loop_body (camera : Camera3D) : itree raylibE Camera3D :=
  camera <- perform (UpdateCamera camera CAMERA_FREE);;
  perform BeginDrawing;;
  perform (ClearBackground GRAY);;
  perform (BeginMode3D camera);;
  perform (DrawCube (mkVector3 F.zero F.zero F.zero) F.two F.two F.two RED);;
  perform (DrawGrid 10 F.one);;
  perform EndMode3D;;
  perform (DrawText "Test" 10 10 16 (mkColor 255 255 255 255));;
  perform EndDrawing;;
  Ret camera.

(** The three things every frame draws: a red 2x2x2 cube at the origin, a
    grid of 10 slices spaced 1.0, and the label "Test" at (10,10), size
    16, in opaque white. *)
Definition the_cube : call :=
  Call (DrawCube (mkVector3 F.zero F.zero F.zero) F.two F.two F.two RED) tt.

Definition the_grid : call := Call (DrawGrid 10 F.one) tt.

Definition the_label : call :=
  Call (DrawText "Test" 10 10 16 (mkColor 255 255 255 255)) tt.

(** One of each, and nothing else of their kind. *)
Definition draws_the_scene (calls : trace) : Prop :=
  calls_to "DrawCube" calls = [the_cube] /\
  calls_to "DrawGrid" calls = [the_grid] /\
  calls_to "DrawText" calls = [the_label].

End Shapes.

(** The functions one loop body calls, in order. *)
Definition frame_names : list string :=
  ["UpdateCamera"; "BeginDrawing"; "ClearBackground"; "BeginMode3D";
   "DrawCube"; "DrawGrid"; "EndMode3D"; "DrawText"; "EndDrawing"].

(** The calls of a run other than the camera updates: the window, clear,
    draw and present operations (and the polls). *)
Definition other_calls (tr : trace) : trace :=
  filter (fun c => negb (String.eqb (name c) "UpdateCamera")) tr.

(** A run that draws [frames] full frames, one per iteration, and then
    tears the window down, once and last. *)
Definition draws_frames_then_closes (frames : nat) (tr : trace) : Prop :=
  frames_drawn tr = frames /\
  List.length (iterations tr) = frames /\
  Forall (fun calls => full_frame calls = true) (iterations tr) /\
  count_calls "CloseWindow" tr = 1%nat /\
  exists tr', tr = tr' ++ [Call CloseWindow tt].

(** The steps of a full frame: clear, the 3D draw, the overlay draw and
    the present. *)
Definition frame_steps : list string :=
  ["ClearBackground"; "BeginMode3D"; "DrawCube"; "DrawGrid"; "EndMode3D";
   "DrawText"; "EndDrawing"].

(** The drawing a run does, wherever in the run it does it: its calls to
    the functions of [frame_steps], by name and in order. *)
Definition drawing_steps (tr : trace) : list string :=
  filter (fun n => existsb (String.eqb n) frame_steps) (names tr).

(** A run that performs exactly [frames] full frames, each with its steps
    in order and nothing drawn besides, whether before, between or after
    the polls, and then tears the window down, once and last. *)
Definition performs_frames (frames : nat) (tr : trace) : Prop :=
  drawing_steps tr = List.concat (repeat frame_steps frames) /\
  count_calls "CloseWindow" tr = 1%nat /\
  exists tr', tr = tr' ++ [Call CloseWindow tt].

(** The functions a run with [frames] frames calls, from start to end. *)
Definition run_names (frames : nat) : list string :=
  ["SetConfigFlags"; "InitWindow"; "SetTargetFPS"]
    ++ List.concat (repeat ("WindowShouldClose" :: frame_names) frames)
    ++ ["WindowShouldClose"; "CloseWindow"].

(** A run in which a pass whose poll reports the close request still draws
    its full frame before the loop ends. *)
Definition close_poll_still_draws (tr : trace) : Prop :=
  forall calls, In (true, calls) (passes tr) -> full_frame calls = true.

(* ===================================================================== *)
(** ** Concrete environments and runs                                      *)
(* ===================================================================== *)

(** A user who closes the window at poll [n], and until then looks around:
    even updates move the eye, odd ones move the target. *)
Definition close_at (n : nat) : Env := {|
  close_requested := fun k => Nat.leb n k;
  camera_moved := fun k camera _ =>
    if Nat.even k
    then set_position camera (mkVector3 F.five F.ten F.five)
    else set_target camera (mkVector3 F.one F.zero F.zero)
|}.

(** The run of either program when the first poll already reports the
    close request (with raylib 5's constants). *)
Definition closed_at_once : trace :=
  [ Call (SetConfigFlags 4) tt;
    Call (InitWindow 800 450 "Raylib Test") tt;
    Call (SetTargetFPS 60) tt;
    Call WindowShouldClose true;
    Call CloseWindow tt ].

(** What a loop that polled at the end of its body, not at its head, would
    do when its first poll reports the close request: one frame, then the
    poll.  Neither program has this run. *)
Definition polled_after_frame : trace :=
  [ Call (SetConfigFlags 4) tt;
    Call (InitWindow 800 450 "Raylib Test") tt;
    Call (SetTargetFPS 60) tt ]
    ++ @frame_calls raylib5 (@camera_c raylib5) (@camera_c raylib5)
    ++ [ Call WindowShouldClose true; Call CloseWindow tt ].

(** The run of [main.c] against [close_at 3]. *)
Definition three_frames : trace :=
  @run_calls raylib5 (@camera_c raylib5)
    (@cameras_of raylib5 (close_at 3) 0 (@camera_c raylib5) 3).

(** Some contents the uninitialised camera of [main.cpp] may have, and the
    run of [main.cpp] against [close_at 3] that starts with them. *)
Definition stale_camera : Camera3D :=
  mkCamera3D (mkVector3 F.one F.two F.five) (mkVector3 F.ten F.ten F.ten)
    (mkVector3 F.zero F.zero F.one) F.two 7.

Definition three_frames_cpp : trace :=
  @run_calls raylib5 (@camera_cpp raylib5 stale_camera)
    (@cameras_of raylib5 (close_at 3) 0 (@camera_cpp raylib5 stale_camera) 3).

(** The run of [main.cpp], started with the same stale contents, in which
    the polls and the camera updates answer as they do in [three_frames]. *)
Definition three_frames_cpp_alike : trace :=
  @run_calls raylib5 (@camera_cpp raylib5 stale_camera)
    (cameras_left three_frames).

(* ===================================================================== *)
(** ** Runs that have not ended                                            *)
(* ===================================================================== *)

(** [started t tr]: the program [t] can make the calls [tr], in this order
    and with these answers; it need not have returned, and may never do
    so.  These are the runs to look at when the window is never closed. *)
Inductive started' {R : Type} : itree' raylibE R -> trace -> Prop :=
| started_nil (ot : itree' raylibE R) : started' ot []
| started_Tau (t : itree raylibE R) tr :
    started' (observe t) tr -> started' (TauF t) tr
| started_Vis (X : Type) (e : raylibE X) (k : X -> itree raylibE R) (ans : X) tr :
    started' (observe (k ans)) tr -> started' (VisF e k) (Call e ans :: tr).

Definition started {R : Type} (t : itree raylibE R) (tr : trace) : Prop :=
  started' (observe t) tr.

(** [started], by height. *)
Fixpoint startedN {R : Type} (n : nat) (t : itree raylibE R) (tr : trace)
    : Prop :=
  match n with
  | O => tr = []
  | S n' =>
      tr = [] \/
      match observe t with
      | RetF _ => False
      | TauF t' => startedN n' t' tr
      | VisF e k =>
          exists ans tr', tr = Call e ans :: tr' /\ startedN n' (k ans) tr'
      end
  end.

(** A started run of [while cond body] from state [s]: it stops inside the
    condition, or inside the body, or inside a later iteration. *)
Inductive while_started {St : Type} (cond : itree raylibE bool)
    (body : St -> itree raylibE St) : St -> trace -> Prop :=
| while_in_cond s tr :
    started cond tr -> while_started cond body s tr
| while_in_body s tr1 tr2 :
    runs cond tr1 true -> started (body s) tr2 ->
    while_started cond body s (tr1 ++ tr2)
| while_later s tr1 tr2 s1 tr3 :
    runs cond tr1 true -> runs (body s) tr2 s1 ->
    while_started cond body s1 tr3 ->
    while_started cond body s (tr1 ++ tr2 ++ tr3).

(** The calls a program has made against [env] when [fuel] steps are
    over, whether it has returned or not. *)
Fixpoint calls_within {R : Type} (fuel : nat) (env : Env) (done : trace)
    (t : itree raylibE R) : trace :=
  match fuel with
  | O => done
  | S fuel' =>
      match observe t with
      | RetF _ => done
      | TauF t' => calls_within fuel' env done t'
      | VisF e k =>
          let ans := answer env done e in
          calls_within fuel' env (done ++ [Call e ans]) (k ans)
      end
  end.

(* ===================================================================== *)
(** ** The order raylib wants its calls in                                 *)
(* ===================================================================== *)

(** Where a program stands with its window: not yet created, open and
    between two frames, inside [BeginDrawing]/[EndDrawing], inside
    [BeginMode3D]/[EndMode3D] within a frame, or closed. *)
Inductive stage : Type :=
| NoWindow
| BetweenFrames
| InFrame
| In3D
| WindowClosed.

(** The calls each stage admits, and where they lead; [None] is a call out
    of place.  Flags are set before the window exists; polling, pacing and
    camera updates happen between frames; clearing and text belong to a
    frame outside the 3D mode, cubes and grids inside it; nothing follows
    [CloseWindow]. *)
Definition next_stage (s : stage) (fn : string) : option stage :=
  match s with
  | NoWindow =>
      if String.eqb fn "SetConfigFlags" then Some NoWindow
      else if String.eqb fn "InitWindow" then Some BetweenFrames
      else None
  | BetweenFrames =>
      if String.eqb fn "SetTargetFPS" then Some BetweenFrames
      else if String.eqb fn "WindowShouldClose" then Some BetweenFrames
      else if String.eqb fn "UpdateCamera" then Some BetweenFrames
      else if String.eqb fn "BeginDrawing" then Some InFrame
      else if String.eqb fn "CloseWindow" then Some WindowClosed
      else None
  | InFrame =>
      if String.eqb fn "ClearBackground" then Some InFrame
      else if String.eqb fn "DrawText" then Some InFrame
      else if String.eqb fn "BeginMode3D" then Some In3D
      else if String.eqb fn "EndDrawing" then Some BetweenFrames
      else None
  | In3D =>
      if String.eqb fn "DrawCube" then Some In3D
      else if String.eqb fn "DrawGrid" then Some In3D
      else if String.eqb fn "EndMode3D" then Some InFrame
      else None
  | WindowClosed => None
  end.

Fixpoint stage_after (s : stage) (ns : list string) : option stage :=
  match ns with
  | [] => Some s
  | fn :: ns' =>
      match next_stage s fn with
      | Some s' => stage_after s' ns'
      | None => None
      end
  end.

Section Starts.
Context {hdr : RaylibHeader}.

(** The loop before the poll that ends it: one poll answering false and
    one body per element of [cams]. *)
Fixpoint loop_start (camera : Camera3D) (cams : list Camera3D) : trace :=
  match cams with
  | [] => []
  | moved :: cams' =>
      Call WindowShouldClose false :: frame_calls camera moved
        ++ loop_start moved cams'
  end.

End Starts.

(** The camera is threaded through the calls made so far: every update
    but the first was handed what the update before it left, the first
    was handed [start], and every 3D scope was opened with what the last
    update had left; at most the last update has had no scope yet. *)
Definition camera_threaded (start : Camera3D) (tr : trace) : Prop :=
  cameras_given tr = removelast (start :: cameras_left tr) /\
  (cameras_drawn tr = cameras_left tr \/
   cameras_drawn tr = removelast (cameras_left tr)).

(** A user who never closes the window. *)
Definition never_closed : Env := {|
  close_requested := fun _ => false;
  camera_moved := fun k camera _ =>
    if Nat.even k
    then set_position camera (mkVector3 F.five F.ten F.five)
    else set_target camera (mkVector3 F.one F.zero F.zero)
|}.

(** [main.c] against [never_closed], stopped in the middle of its second
    frame, inside the 3D mode. *)
Definition stopped_in_3d : trace :=
  Eval vm_compute in calls_within 20 never_closed [] (@main_c raylib5).

(* ===================================================================== *)
(** * Properties                                                         *)
(* ===================================================================== *)

(* ===================================================================== *)
(** ** Runs: one rule for each construct of the programs                  *)
(* ===================================================================== *)

Lemma runsN_mono {R : Type} (n m : nat) (t : itree raylibE R) tr v :
  (n <= m)%nat -> runsN n t tr v -> runsN m t tr v.
Proof.
  revert m t tr. induction n as [|n IH]; intros m t tr Hle H; [destruct H|].
  destruct m as [|m]; [lia|]. simpl in *.
  destruct (observe t) as [v'|t'|X e k]; auto.
  - apply IH; [lia|exact H].
  - destruct H as (ans & tr' & -> & H). exists ans, tr'. split; [reflexivity|].
    apply IH; [lia|exact H].
Qed.

Lemma runs_runsN {R : Type} (t : itree raylibE R) tr v :
  runs t tr v <-> exists n, runsN n t tr v.
Proof.
  unfold runs. split.
  - intros H. remember (observe t) as ot eqn:Hot. revert t Hot.
    induction H as [v|t' tr v _ IH|X e k ans tr v _ IH]; intros t Hot.
    + exists 1%nat. simpl. rewrite <- Hot. auto.
    + destruct (IH t' eq_refl) as [n Hn]. exists (S n). simpl.
      rewrite <- Hot. exact Hn.
    + destruct (IH (k ans) eq_refl) as [n Hn]. exists (S n). simpl.
      rewrite <- Hot. eauto.
  - intros [n H]. revert t tr H. induction n as [|n IH]; intros t tr H;
      [destruct H|].
    simpl in H. destruct (observe t) as [v'|t'|X e k].
    + destruct H as [-> ->]. constructor.
    + constructor. apply IH. exact H.
    + destruct H as (ans & tr' & -> & H). constructor. apply IH. exact H.
Qed.

Lemma runs_Ret_iff {R : Type} (v0 : R) tr v :
  runs (Ret v0 : itree raylibE R) tr v <-> tr = [] /\ v = v0.
Proof.
  split.
  - intros H. apply runs_runsN in H. destruct H as [[|n] H]; [destruct H|].
    exact H.
  - intros [-> ->]. constructor.
Qed.

Lemma runs_perform_iff {X : Type} (e : raylibE X) tr v :
  runs (perform e) tr v <-> tr = [Call e v].
Proof.
  split.
  - intros H. apply runs_runsN in H. destruct H as [[|n] H]; [destruct H|].
    simpl in H. destruct H as (ans & tr' & -> & H).
    destruct n as [|n]; [destruct H|]. simpl in H. destruct H as [-> ->].
    reflexivity.
  - intros ->. unfold runs. simpl. do 2 constructor.
Qed.

Lemma runsN_bind_inv {A R : Type} (n : nat) (t : itree raylibE A)
    (k : A -> itree raylibE R) tr v :
  runsN n (ITree.bind t k) tr v ->
  exists tr1 x tr2,
    runsN n t tr1 x /\ runsN n (k x) tr2 v /\ tr = (tr1 ++ tr2)%list.
Proof.
  revert t tr. induction n as [|n IH]; intros t tr H; [destruct H|].
  change (runsN (S n) (ITree.bind t k) tr v) with
    (match observe (ITree.bind t k) with
     | RetF v' => tr = [] /\ v = v'
     | TauF t' => runsN n t' tr v
     | VisF e h => exists ans tr', tr = Call e ans :: tr' /\ runsN n (h ans) tr' v
     end) in H.
  change (observe (ITree.bind t k)) with
    (observe (match observe t with
              | RetF x => k x
              | TauF t0 => Tau (ITree.bind t0 k)
              | VisF e h => Vis e (fun a => ITree.bind (h a) k)
              end)) in H.
  simpl (runsN (S n) t).
  destruct (observe t) as [x|t0|X e h].
  - exists [], x, tr. repeat split. exact H.
  - simpl in H. apply IH in H. destruct H as (tr1 & x & tr2 & H1 & H2 & ->).
    exists tr1, x, tr2. repeat split; [exact H1|].
    apply runsN_mono with n; [lia|exact H2].
  - simpl in H. destruct H as (ans & tr' & -> & H). apply IH in H.
    destruct H as (tr1 & x & tr2 & H1 & H2 & ->).
    exists (Call e ans :: tr1), x, tr2. repeat split; [eauto|].
    apply runsN_mono with n; [lia|exact H2].
Qed.

Lemma runs_bind {A R : Type} (t : itree raylibE A) (k : A -> itree raylibE R)
    tr1 x tr2 v :
  runs t tr1 x -> runs (k x) tr2 v -> runs (ITree.bind t k) (tr1 ++ tr2) v.
Proof.
  unfold runs. intros H1 H2.
  remember (observe t) as ot eqn:Hot. revert t Hot.
  induction H1 as [x|t' tr x _ IH|X e h ans tr x _ IH]; intros t Hot;
    change (observe (ITree.bind t k)) with
      (observe (match observe t with
                | RetF x => k x
                | TauF t0 => Tau (ITree.bind t0 k)
                | VisF e h => Vis e (fun a => ITree.bind (h a) k)
                end));
    rewrite <- Hot; simpl.
  - exact H2.
  - constructor. apply (IH H2 t' eq_refl).
  - constructor. apply (IH H2 (h ans) eq_refl).
Qed.

Lemma runs_bind_iff {A R : Type} (t : itree raylibE A)
    (k : A -> itree raylibE R) tr v :
  runs (ITree.bind t k) tr v <->
  exists tr1 x tr2, runs t tr1 x /\ runs (k x) tr2 v /\ tr = (tr1 ++ tr2)%list.
Proof.
  split.
  - intros H. apply runs_runsN in H. destruct H as [n H].
    apply runsN_bind_inv in H. destruct H as (tr1 & x & tr2 & H1 & H2 & ->).
    exists tr1, x, tr2. repeat split; apply runs_runsN; eauto.
  - intros (tr1 & x & tr2 & H1 & H2 & ->). eapply runs_bind; eauto.
Qed.

Lemma runsN_while_inv {St : Type} (cond : itree raylibE bool)
    (body : St -> itree raylibE St) (n : nat) s tr s' :
  runsN n (while cond body s) tr s' -> while_runs cond body s tr s'.
Proof.
  revert s tr. induction n as [|n IH]; intros s tr H; [destruct H|].
  unfold while in H.
  change (runsN (S n) (ITree.iter ?step s) tr s') with
    (runsN (S n)
       (ITree.bind (step s)
          (fun lr => match lr with
                     | inl l => Tau (ITree.iter step l)
                     | inr v => Ret v
                     end)) tr s') in H.
  apply runsN_bind_inv in H. destruct H as (tr1 & lr & tr2 & H1 & H2 & ->).
  apply runsN_bind_inv in H1. destruct H1 as (trc & c & trb & Hc & Hb & ->).
  assert (Hc' : runs cond trc c) by (apply runs_runsN; eauto).
  destruct c.
  - apply runsN_bind_inv in Hb. destruct Hb as (trb' & s1 & tre & Hb & He & ->).
    simpl in He. destruct He as [-> ->]. simpl in H2.
    rewrite app_nil_r, <- app_assoc.
    apply while_iterate with s1; [exact Hc'|apply runs_runsN; eauto|].
    apply IH. exact H2.
  - simpl in Hb. destruct Hb as [-> ->]. simpl in H2. destruct H2 as [-> ->].
    rewrite !app_nil_r. apply while_exit. exact Hc'.
Qed.

Lemma runs_while_iff {St : Type} (cond : itree raylibE bool)
    (body : St -> itree raylibE St) s tr s' :
  runs (while cond body s) tr s' <-> while_runs cond body s tr s'.
Proof.
  split.
  - intros H. apply runs_runsN in H. destruct H as [n H].
    eapply runsN_while_inv; eauto.
  - induction 1 as [s tr Hc|s tr1 tr2 s1 tr3 s2 Hc Hb _ IH].
    + unfold while, runs.
      change (observe (ITree.iter ?step s)) with
        (observe (ITree.bind (step s)
           (fun lr => match lr with
                      | inl l => Tau (ITree.iter step l)
                      | inr v => Ret v
                      end))).
      rewrite <- (app_nil_r tr). eapply runs_bind.
      * rewrite <- (app_nil_r tr). eapply runs_bind; [exact Hc|].
        simpl. constructor.
      * simpl. constructor.
    + unfold while, runs.
      change (observe (ITree.iter ?step s)) with
        (observe (ITree.bind (step s)
           (fun lr => match lr with
                      | inl l => Tau (ITree.iter step l)
                      | inr v => Ret v
                      end))).
      rewrite app_assoc. eapply runs_bind.
      * eapply runs_bind; [exact Hc|]. simpl.
        rewrite <- (app_nil_r tr2). eapply runs_bind; [exact Hb|].
        constructor.
      * simpl. constructor. exact IH.
Qed.

(* ===================================================================== *)
(** ** The runner follows the runs                                        *)
(* ===================================================================== *)

Lemma exec_sound {R : Type} (fuel : nat) env done (t : itree raylibE R) tr v :
  exec fuel env done t = Some (tr, v) ->
  exists tr', tr = done ++ tr' /\ runs t tr' v /\ answered_by env done tr'.
Proof.
  unfold runs. revert done t.
  induction fuel as [|fuel IH]; intros done t H; [discriminate|].
  simpl in H. destruct (observe t) as [v'|t'|X e k].
  - injection H as <- <-. exists []. rewrite app_nil_r.
    repeat split. constructor.
  - apply IH in H. destruct H as (tr' & -> & H & Ha).
    exists tr'. repeat split; [constructor; exact H|exact Ha].
  - apply IH in H. destruct H as (tr' & -> & H & Ha).
    exists (Call e (answer env done e) :: tr'). rewrite <- app_assoc.
    repeat split; [constructor; exact H|exact Ha].
Qed.

Lemma exec_complete {R : Type} env (t : itree raylibE R) tr v :
  runs t tr v ->
  forall done, answered_by env done tr ->
  exists fuel0, forall fuel, (fuel0 <= fuel)%nat ->
    exec fuel env done t = Some (done ++ tr, v).
Proof.
  unfold runs. intros H. remember (observe t) as ot eqn:Hot. revert t Hot.
  induction H as [v|t' tr v _ IH|X e k ans tr v _ IH]; intros t Hot done Ha.
  - exists 1%nat. intros [|fuel] Hf; [lia|]. simpl. rewrite <- Hot.
    rewrite app_nil_r. reflexivity.
  - destruct (IH t' eq_refl done Ha) as [f0 Hf0]. exists (S f0).
    intros [|fuel] Hf; [lia|]. simpl. rewrite <- Hot. apply Hf0. lia.
  - destruct Ha as [-> Ha].
    destruct (IH (k (answer env done e)) eq_refl _ Ha) as [f0 Hf0].
    exists (S f0). intros [|fuel] Hf; [lia|]. simpl. rewrite <- Hot.
    rewrite Hf0 by lia. rewrite <- app_assoc. reflexivity.
Qed.

(** More fuel never changes a result. *)
Lemma exec_fuel {R : Type} (fuel fuel' : nat) env done (t : itree raylibE R) res :
  (fuel <= fuel')%nat ->
  exec fuel env done t = Some res -> exec fuel' env done t = Some res.
Proof.
  revert fuel' done t. induction fuel as [|fuel IH]; intros fuel' done t Hle H;
    [discriminate|].
  destruct fuel' as [|fuel']; [lia|]. simpl in *.
  destruct (observe t) as [v'|t'|X e k]; [exact H| |]; apply IH; (lia || exact H).
Qed.

(* ===================================================================== *)
(** ** The runs of the two programs                                        *)
(* ===================================================================== *)

Lemma last_cons {A : Type} (l : list A) (x d : A) :
  last (x :: l) d = last l x.
Proof.
  revert x d. induction l as [|y l IH]; intros x d; [reflexivity|].
  change (last (x :: y :: l) d) with (last (y :: l) d).
  rewrite (IH y d), (IH y x). reflexivity.
Qed.

Section Shape.
Context {hdr : RaylibHeader}.

Lemma main_c_with_loop camera :
  main_c_with camera =
  (perform (SetConfigFlags FLAG_WINDOW_RESIZABLE);;
   perform (InitWindow 800 450 "Raylib Test");;
   perform (SetTargetFPS 60);;
   _ <- while loop_cond loop_body camera;;
   perform CloseWindow;;
   Ret 0).
Proof. reflexivity. Qed.

Lemma main_cpp_with_loop camera :
  main_cpp_with camera =
  (perform (SetConfigFlags FLAG_WINDOW_RESIZABLE);;
   perform (InitWindow 800 450 "Raylib Test");;
   perform (SetTargetFPS 60);;
   _ <- while loop_cond loop_body camera;;
   perform CloseWindow;;
   Ret 0).
Proof. reflexivity. Qed.

(** Cut a run of [x <- perform e;; k x] after its first call. *)
Lemma runs_perform_bind {X R : Type} (e : raylibE X)
    (k : X -> itree raylibE R) tr v :
  runs (x <- perform e;; k x) tr v <->
  exists ans tr', tr = Call e ans :: tr' /\ runs (k ans) tr' v.
Proof.
  rewrite runs_bind_iff. split.
  - intros (tr1 & ans & tr2 & H1 & H2 & ->).
    apply runs_perform_iff in H1. subst tr1. exists ans, tr2.
    split; [reflexivity|exact H2].
  - intros (ans & tr' & -> & H). exists [Call e ans], ans, tr'.
    repeat split; [apply runs_perform_iff; reflexivity|exact H].
Qed.

Lemma runs_loop_cond tr closing :
  runs loop_cond tr closing <-> tr = [Call WindowShouldClose (negb closing)].
Proof.
  unfold loop_cond. rewrite runs_perform_bind. split.
  - intros (ans & tr' & -> & H). apply runs_Ret_iff in H.
    destruct H as [-> ->]. rewrite Bool.negb_involutive. reflexivity.
  - intros ->. exists (negb closing), []. split; [reflexivity|].
    apply runs_Ret_iff. rewrite Bool.negb_involutive. auto.
Qed.

Lemma runs_loop_body camera tr camera' :
  runs (loop_body camera) tr camera' <-> tr = frame_calls camera camera'.
Proof.
  unfold loop_body. split.
  - intros H.
    repeat (apply runs_perform_bind in H;
            destruct H as (? & ? & -> & H)).
    apply runs_Ret_iff in H. destruct H as [-> ->].
    repeat match goal with u : unit |- _ => destruct u end.
    reflexivity.
  - intros ->. unfold frame_calls.
    repeat (apply runs_perform_bind; eexists; eexists;
            split; [reflexivity|]).
    apply runs_Ret_iff. auto.
Qed.

Lemma while_runs_loop camera tr camera' :
  while_runs loop_cond loop_body camera tr camera' <->
  exists cams, tr = loop_calls camera cams /\ camera' = last cams camera.
Proof.
  split.
  - induction 1 as [s tr Hc|s tr1 tr2 s1 tr3 s2 Hc Hb _ IH].
    + apply runs_loop_cond in Hc. subst tr. exists []. auto.
    + apply runs_loop_cond in Hc. apply runs_loop_body in Hb. subst tr1 tr2.
      destruct IH as (cams & -> & ->). exists (s1 :: cams). split.
      * reflexivity.
      * symmetry. apply last_cons.
  - intros (cams & -> & ->). revert camera.
    induction cams as [|moved cams IH]; intros camera.
    + apply while_exit. apply runs_loop_cond. reflexivity.
    + change (loop_calls camera (moved :: cams)) with
        ([Call WindowShouldClose (negb true)] ++ frame_calls camera moved
           ++ loop_calls moved cams).
      rewrite last_cons.
      apply while_iterate with moved.
      * apply runs_loop_cond. reflexivity.
      * apply runs_loop_body. reflexivity.
      * apply IH.
Qed.

(** The runs of [main.c] from a given camera: for every list of answers
    of the camera updates there is one, and there are no others. *)
Lemma runs_main_c_with camera tr v :
  runs (main_c_with camera) tr v <->
  exists cams, tr = run_calls camera cams /\ v = 0.
Proof.
  rewrite main_c_with_loop. split.
  - intros H.
    do 3 (apply runs_perform_bind in H; destruct H as (? & ? & -> & H)).
    apply runs_bind_iff in H. destruct H as (tr1 & cam' & tr2 & Hw & H & ->).
    apply runs_while_iff, while_runs_loop in Hw.
    destruct Hw as (cams & -> & _).
    apply runs_perform_bind in H. destruct H as (? & ? & -> & H).
    apply runs_Ret_iff in H. destruct H as [-> ->].
    repeat match goal with u : unit |- _ => destruct u end.
    exists cams. split; reflexivity.
  - intros (cams & -> & ->). unfold run_calls, opening.
    do 3 (apply runs_perform_bind; eexists; eexists; split; [reflexivity|]).
    apply runs_bind_iff.
    exists (loop_calls camera cams), (last cams camera), [Call CloseWindow tt].
    repeat split.
    + apply runs_while_iff, while_runs_loop. eauto.
    + apply runs_perform_bind. exists tt, []. split; [reflexivity|].
      apply runs_Ret_iff. auto.
Qed.

Lemma runs_main_cpp_with camera tr v :
  runs (main_cpp_with camera) tr v <->
  exists cams, tr = run_calls camera cams /\ v = 0.
Proof.
  rewrite main_cpp_with_loop, <- main_c_with_loop. apply runs_main_c_with.
Qed.

Lemma runs_main_c tr v :
  runs main_c tr v <-> exists cams, tr = run_calls camera_c cams /\ v = 0.
Proof. unfold main_c. apply runs_main_c_with. Qed.

Lemma runs_main_cpp u tr v :
  runs (main_cpp u) tr v <->
  exists cams, tr = run_calls (camera_cpp u) cams /\ v = 0.
Proof. unfold main_cpp. apply runs_main_cpp_with. Qed.

End Shape.

(* ===================================================================== *)
(** ** What the observations see of such a run                            *)
(* ===================================================================== *)

Section Observations.
Context {hdr : RaylibHeader}.

Lemma cut_loop_calls camera cams :
  cut_at_polls (loop_calls camera cams ++ [Call CloseWindow tt]) =
  ([], loop_passes camera cams).
Proof.
  revert camera. induction cams as [|moved cams IH]; intros camera.
  - reflexivity.
  - unfold loop_passes. simpl. rewrite IH. reflexivity.
Qed.

Lemma cut_run_calls camera cams :
  cut_at_polls (run_calls camera cams) = (opening, loop_passes camera cams).
Proof.
  unfold run_calls, opening. simpl. rewrite cut_loop_calls. reflexivity.
Qed.

Lemma startup_run_calls camera cams :
  startup (run_calls camera cams) = opening.
Proof. unfold startup. rewrite cut_run_calls. reflexivity. Qed.

Lemma passes_run_calls camera cams :
  passes (run_calls camera cams) = loop_passes camera cams.
Proof. unfold passes. rewrite cut_run_calls. reflexivity. Qed.

Lemma iterations_run_calls camera cams :
  iterations (run_calls camera cams) = loop_frames camera cams.
Proof.
  unfold iterations. rewrite passes_run_calls. unfold loop_passes.
  rewrite filter_app, map_app. simpl. rewrite app_nil_r.
  induction (loop_frames camera cams) as [|f fs IH]; [reflexivity|].
  simpl. rewrite IH. reflexivity.
Qed.

Lemma length_loop_frames camera cams :
  List.length (loop_frames camera cams) = List.length cams.
Proof.
  revert camera. induction cams as [|moved cams IH]; intros camera;
    [reflexivity|]. simpl. rewrite IH. reflexivity.
Qed.

Lemma loop_frames_shape camera cams :
  Forall (fun calls => exists given moved, calls = frame_calls given moved)
    (loop_frames camera cams).
Proof.
  revert camera. induction cams as [|moved cams IH]; intros camera;
    constructor; eauto.
Qed.

Lemma frames_drawn_run_calls camera cams :
  frames_drawn (run_calls camera cams) = List.length cams.
Proof.
  unfold frames_drawn. rewrite passes_run_calls. unfold loop_passes.
  rewrite filter_app, length_app. simpl. rewrite Nat.add_0_r.
  rewrite <- (length_loop_frames camera cams).
  assert (H := loop_frames_shape camera cams).
  induction H as [|f fs (given & moved & ->) _ IH]; [reflexivity|].
  simpl. rewrite IH. reflexivity.
Qed.

Lemma collect_app {A : Type} (f : call -> option A) tr1 tr2 :
  collect f (tr1 ++ tr2) = collect f tr1 ++ collect f tr2.
Proof.
  induction tr1 as [|c tr1 IH]; [reflexivity|]. simpl.
  destruct (f c); simpl; rewrite IH; reflexivity.
Qed.

Lemma polls_loop_calls camera cams :
  polls (loop_calls camera cams) = repeat false (List.length cams) ++ [true].
Proof.
  revert camera. induction cams as [|moved cams IH]; intros camera;
    [reflexivity|].
  unfold polls in *. simpl. rewrite IH. reflexivity.
Qed.

Lemma polls_run_calls camera cams :
  polls (run_calls camera cams) = repeat false (List.length cams) ++ [true].
Proof.
  unfold run_calls, polls. rewrite !collect_app.
  fold (polls (loop_calls camera cams)). rewrite polls_loop_calls.
  simpl. rewrite app_nil_r. reflexivity.
Qed.

Lemma cameras_left_loop_calls camera cams :
  cameras_left (loop_calls camera cams) = cams.
Proof.
  revert camera. induction cams as [|moved cams IH]; intros camera;
    [reflexivity|].
  unfold cameras_left in *. simpl. rewrite IH. reflexivity.
Qed.

Lemma cameras_left_run_calls camera cams :
  cameras_left (run_calls camera cams) = cams.
Proof.
  unfold run_calls, cameras_left. rewrite !collect_app.
  fold (cameras_left (loop_calls camera cams)).
  rewrite cameras_left_loop_calls. simpl. apply app_nil_r.
Qed.

Lemma cameras_drawn_run_calls camera cams :
  cameras_drawn (run_calls camera cams) = cams.
Proof.
  unfold run_calls, cameras_drawn. rewrite !collect_app. simpl.
  rewrite app_nil_r. revert camera.
  induction cams as [|moved cams IH]; intros camera; [reflexivity|].
  simpl. rewrite IH. reflexivity.
Qed.

Lemma cameras_given_run_calls camera cams :
  cameras_given (run_calls camera cams) = removelast (camera :: cams).
Proof.
  unfold run_calls, cameras_given. rewrite !collect_app. simpl.
  rewrite app_nil_r. revert camera.
  induction cams as [|moved cams IH]; intros camera; [reflexivity|].
  simpl collect. rewrite IH. reflexivity.
Qed.

End Observations.

(* ===================================================================== *)
(** ** The programs against an environment                                *)
(* ===================================================================== *)

Section Against.
Context {hdr : RaylibHeader}.

Lemma length_cameras_of env k camera n :
  List.length (cameras_of env k camera n) = n.
Proof.
  revert k camera. induction n as [|n IH]; intros k camera; [reflexivity|].
  simpl. rewrite IH. reflexivity.
Qed.

Lemma answered_by_polls env tr :
  forall done, answered_by env done tr ->
  forall i closing, nth_error (polls tr) i = Some closing ->
  closing = close_requested env (List.length (polls done) + i).
Proof.
  induction tr as [|c tr IH]; intros done Ha i closing Hi.
  - destruct i; discriminate.
  - destruct Ha as [Hc Ha]. specialize (IH _ Ha).
    unfold polls in *. rewrite collect_app in IH. simpl in Hi, IH.
    destruct c as [X e ans]. destruct e; simpl in *;
      try (rewrite app_nil_r in IH; apply IH; exact Hi).
    rewrite length_app in IH. simpl in IH. destruct i as [|i].
    + injection Hi as <-. rewrite Nat.add_0_r. exact Hc.
    + replace (List.length (collect poll_answer done) + S i)%nat
        with (List.length (collect poll_answer done) + 1 + i)%nat by lia.
      apply IH. exact Hi.
Qed.

Lemma answered_loop env n : forall done camera,
  (forall j, (j < n)%nat ->
     close_requested env (List.length (polls done) + j) = false) ->
  close_requested env (List.length (polls done) + n) = true ->
  answered_by env done
    (loop_calls camera
       (cameras_of env (List.length (cameras_left done)) camera n)
     ++ [Call CloseWindow tt]).
Proof.
  induction n as [|n IH]; intros done camera Hf Ht.
  - simpl. rewrite Nat.add_0_r in Ht. rewrite Ht. auto.
  - assert (H0 := Hf O ltac:(lia)). rewrite Nat.add_0_r in H0.
    cbn [cameras_of loop_calls frame_calls app answered_by answer].
    rewrite H0. unfold cameras_left at 2. rewrite collect_app. simpl.
    rewrite app_nil_r. fold (cameras_left done).
    repeat (split; [reflexivity|]).
    match goal with
    | |- answered_by _ ?d _ =>
        assert (Hp : List.length (polls d) = S (List.length (polls done)))
          by (unfold polls; rewrite !collect_app, !length_app; simpl; lia);
        assert (Hc : List.length (cameras_left d)
                     = S (List.length (cameras_left done)))
          by (unfold cameras_left; rewrite !collect_app, !length_app;
              simpl; lia);
        rewrite <- Hc; apply IH; rewrite Hp
    end.
    + intros j Hj. replace (S (List.length (polls done)) + j)%nat
        with (List.length (polls done) + S j)%nat by lia.
      apply Hf. lia.
    + replace (S (List.length (polls done)) + n)%nat
        with (List.length (polls done) + S n)%nat by lia.
      exact Ht.
Qed.

Lemma answered_run env camera n :
  (forall k, (k < n)%nat -> close_requested env k = false) ->
  close_requested env n = true ->
  answered_by env [] (run_calls camera (cameras_of env 0 camera n)).
Proof.
  intros Hf Ht. unfold run_calls, opening. simpl.
  repeat (split; [reflexivity|]).
  match goal with
  | |- answered_by _ ?d _ => apply (@answered_loop env n d camera)
  end; simpl; assumption.
Qed.

(** When the close request comes at poll [n], [main.c] returns, with
    enough fuel, after the run with [n] frames. *)
Lemma exec_main_c_with env camera n :
  (forall k, (k < n)%nat -> close_requested env k = false) ->
  close_requested env n = true ->
  exists fuel0, forall fuel, (fuel0 <= fuel)%nat ->
    exec fuel env [] (main_c_with camera) =
    Some (run_calls camera (cameras_of env 0 camera n), 0).
Proof.
  intros Hf Ht.
  change (run_calls camera (cameras_of env 0 camera n))
    with ([] ++ run_calls camera (cameras_of env 0 camera n)).
  apply exec_complete.
  - apply runs_main_c_with. eauto.
  - apply answered_run; assumption.
Qed.

(** When no close request ever comes, it never returns. *)
Lemma exec_main_c_with_forever env camera :
  (forall k, close_requested env k = false) ->
  forall fuel, exec fuel env [] (main_c_with camera) = None.
Proof.
  intros Hf fuel.
  destruct (exec fuel env [] (main_c_with camera)) as [[tr v]|] eqn:He;
    [|reflexivity].
  apply exec_sound in He. destruct He as (tr' & -> & Hr & Ha).
  apply runs_main_c_with in Hr. destruct Hr as (cams & -> & _).
  assert (H := @answered_by_polls env _ [] Ha (List.length cams) true).
  rewrite polls_run_calls, nth_error_app2, repeat_length, Nat.sub_diag in H
    by (rewrite repeat_length; lia).
  specialize (H eq_refl). rewrite Hf in H. discriminate.
Qed.

End Against.

(* ===================================================================== *)
(** ** The concrete runs                                                  *)
(* ===================================================================== *)

Lemma exec_closed_at_once :
  exec 16 (close_at 0) [] (@main_c raylib5) = Some (closed_at_once, 0).
Proof. reflexivity. Qed.

Lemma runs_closed_at_once : runs (@main_c raylib5) closed_at_once 0.
Proof.
  destruct (exec_sound _ _ _ _ exec_closed_at_once) as (tr & E & H & _).
  simpl in E. subst tr. exact H.
Qed.

Lemma exec_three_frames :
  exec 64 (close_at 3) [] (@main_c raylib5) = Some (three_frames, 0).
Proof. vm_compute. reflexivity. Qed.

Lemma runs_three_frames : runs (@main_c raylib5) three_frames 0.
Proof.
  destruct (exec_sound _ _ _ _ exec_three_frames) as (tr & E & H & _).
  simpl in E. subst tr. exact H.
Qed.

Lemma runs_three_frames_cpp :
  runs (@main_cpp raylib5 stale_camera) three_frames_cpp 0.
Proof. apply runs_main_cpp. unfold three_frames_cpp. eauto. Qed.

(* ===================================================================== *)
(** ** C1, C2: how many frames, and when the loop stops                   *)
(* ===================================================================== *)

Section Loop.
Context {hdr : RaylibHeader}.

Lemma count_close_run_calls camera cams :
  count_calls "CloseWindow" (run_calls camera cams) = 1%nat.
Proof.
  unfold count_calls, calls_to, run_calls. rewrite !filter_app, !length_app.
  simpl. assert (H : forall c,
    filter (fun c => String.eqb (name c) "CloseWindow") (loop_calls c cams) = []).
  { induction cams as [|moved cams IH]; intros c; [reflexivity|].
    simpl. apply IH. }
  rewrite H. reflexivity.
Qed.

Lemma polls_fix_frames camera cams n :
  polls (run_calls camera cams) = repeat false n ++ [true] ->
  List.length cams = n.
Proof.
  rewrite polls_run_calls. intros H. apply (f_equal (@List.length bool)) in H.
  rewrite !length_app, !repeat_length in H. simpl in H. lia.
Qed.

Lemma iterations_are_frames camera cams :
  Forall (fun calls => names calls = frame_names /\ full_frame calls = true)
    (iterations (run_calls camera cams)).
Proof.
  rewrite iterations_run_calls.
  eapply Forall_impl; [|apply loop_frames_shape].
  intros calls (given & moved & ->). split; reflexivity.
Qed.

Lemma names_of_run_calls camera cams :
  names (run_calls camera cams) = run_names (List.length cams).
Proof.
  unfold names, run_calls, run_names. rewrite map_app. f_equal.
  revert camera. induction cams as [|moved cams IH]; intros camera;
    [reflexivity|].
  cbn [loop_calls List.length repeat List.concat].
  change (Call WindowShouldClose false :: frame_calls camera moved
            ++ loop_calls moved cams)
    with ((Call WindowShouldClose false :: frame_calls camera moved)
            ++ loop_calls moved cams).
  rewrite <- !app_assoc, map_app, IH. reflexivity.
Qed.

Lemma drawing_steps_run_names n :
  filter (fun n => existsb (String.eqb n) frame_steps) (run_names n) =
  List.concat (repeat frame_steps n).
Proof.
  unfold run_names. rewrite !filter_app.
  change (filter (fun n => existsb (String.eqb n) frame_steps)
            ["SetConfigFlags"; "InitWindow"; "SetTargetFPS"]) with (@nil string).
  change (filter (fun n => existsb (String.eqb n) frame_steps)
            ["WindowShouldClose"; "CloseWindow"]) with (@nil string).
  rewrite app_nil_r. simpl app.
  induction n as [|n IH]; [reflexivity|].
  cbn [repeat List.concat]. rewrite filter_app, IH. reflexivity.
Qed.

Lemma run_calls_performs_frames camera cams n :
  List.length cams = n -> performs_frames n (run_calls camera cams).
Proof.
  intros <-. unfold performs_frames, drawing_steps.
  rewrite names_of_run_calls, drawing_steps_run_names.
  split; [reflexivity|]. split; [apply count_close_run_calls|].
  exists (opening ++ loop_calls camera cams). unfold run_calls.
  rewrite app_assoc. reflexivity.
Qed.

End Loop.

(** The claim as C1 words it can be met: a loop polling after its body
    would, on a single poll that returns true, have drawn one frame. *)
Lemma performs_frames_polled_after :
  polls polled_after_frame = repeat false (1 - 1) ++ [true] /\
  performs_frames 1 polled_after_frame.
Proof.
  split; [reflexivity|]. split; [reflexivity|]. split; [reflexivity|].
  exists (removelast polled_after_frame). reflexivity.
Qed.

(** C1, as the claim words it, fails for N = 1: when the first poll reports
    the close request, [main.c] returns after the run [closed_at_once],
    whose single poll returns true, and that run performs no frame, not
    one: nothing at all is drawn in it. *)
Lemma one_poll_draws_no_frame :
  exec 16 (close_at 0) [] (@main_c raylib5) = Some (closed_at_once, 0) /\
  runs (@main_c raylib5) closed_at_once 0 /\
  polls closed_at_once = repeat false (1 - 1) ++ [true] /\
  frames_drawn closed_at_once = 0%nat /\
  drawing_steps closed_at_once = [] /\
  performs_frames 0 closed_at_once /\
  ~ performs_frames 1 closed_at_once.
Proof.
  split; [exact exec_closed_at_once|].
  split; [exact runs_closed_at_once|].
  split; [reflexivity|]. split; [reflexivity|]. split; [reflexivity|].
  split.
  - split; [reflexivity|]. split; [reflexivity|].
    exists [ Call (SetConfigFlags 4) tt;
             Call (InitWindow 800 450 "Raylib Test") tt;
             Call (SetTargetFPS 60) tt;
             Call WindowShouldClose true ].
    reflexivity.
  - intros [H _]. discriminate H.
Qed.

(** C1, amended: for every sequence of N >= 1 close polls of which the
    first N-1 return false and the N-th returns true, [main.c] returns,
    and its run performs exactly N-1 full frame iterations (each with
    clear, 3D draw, overlay draw and present in that order) and then tears
    the window down exactly once.  All its drawing is these N-1 frames:
    by name, its calls are the three of the startup, then N-1 times a poll
    and the nine calls of a frame, then the last poll and [CloseWindow]. *)
Theorem frames_are_polls_minus_one {hdr : RaylibHeader} (N : nat) :
  (1 <= N)%nat ->
  (forall tr v,
     runs main_c tr v ->
     polls tr = repeat false (N - 1) ++ [true] ->
     draws_frames_then_closes (N - 1) tr /\
     performs_frames (N - 1) tr /\
     names tr = run_names (N - 1)) /\
  (forall env,
     (forall k, (k < N - 1)%nat -> close_requested env k = false) ->
     close_requested env (N - 1) = true ->
     exists tr fuel0,
       (forall fuel, (fuel0 <= fuel)%nat ->
          exec fuel env [] main_c = Some (tr, 0)) /\
       polls tr = repeat false (N - 1) ++ [true] /\
       draws_frames_then_closes (N - 1) tr /\
       performs_frames (N - 1) tr /\
       names tr = run_names (N - 1)).
Proof.
  intros HN.
  assert (Hshape : forall cams, List.length cams = (N - 1)%nat ->
            draws_frames_then_closes (N - 1) (run_calls camera_c cams) /\
            performs_frames (N - 1) (run_calls camera_c cams) /\
            names (run_calls camera_c cams) = run_names (N - 1)).
  { intros cams Hlen. split; [|split].
    - unfold draws_frames_then_closes.
      rewrite frames_drawn_run_calls, iterations_run_calls, length_loop_frames.
      repeat split; try assumption.
      + rewrite <- iterations_run_calls.
        eapply Forall_impl; [|apply iterations_are_frames].
        intros calls [_ H]. exact H.
      + apply count_close_run_calls.
      + exists (opening ++ loop_calls camera_c cams). unfold run_calls.
        rewrite app_assoc. reflexivity.
    - apply run_calls_performs_frames. exact Hlen.
    - rewrite names_of_run_calls, Hlen. reflexivity. }
  split.
  - intros tr v Hr Hp. apply runs_main_c in Hr.
    destruct Hr as (cams & -> & _). apply Hshape.
    eapply polls_fix_frames. exact Hp.
  - intros env Hf Ht.
    destruct (@exec_main_c_with _ env camera_c _ Hf Ht) as [fuel0 He].
    exists (run_calls camera_c (cameras_of env 0 camera_c (N - 1)%nat)), fuel0.
    split; [exact He|]. split.
    + rewrite polls_run_calls, length_cameras_of. reflexivity.
    + apply Hshape. apply length_cameras_of.
Qed.

Lemma frames_are_polls_minus_one_witness :
  (1 <= 4)%nat /\
  (draws_frames_then_closes (4 - 1) three_frames /\
   performs_frames (4 - 1) three_frames /\
   names three_frames = run_names (4 - 1)) /\
  exists tr fuel0,
    (forall fuel, (fuel0 <= fuel)%nat ->
       exec fuel (close_at 3) [] (@main_c raylib5) = Some (tr, 0)) /\
    polls tr = repeat false (4 - 1) ++ [true] /\
    draws_frames_then_closes (4 - 1) tr /\
    performs_frames (4 - 1) tr /\
    names tr = run_names (4 - 1).
Proof.
  assert (H4 : (1 <= 4)%nat) by lia.
  destruct (@frames_are_polls_minus_one raylib5 4 H4) as [Hruns Hexec].
  split; [exact H4|]. split.
  - apply (Hruns three_frames 0); [exact runs_three_frames|reflexivity].
  - apply (Hexec (close_at 3)).
    + intros [|[|[|k]]] Hk; (reflexivity || simpl in Hk; lia).
    + reflexivity.
Defined.

(** C2, as the claim words it, fails: in the run [closed_at_once] the poll
    returns true and what follows is the window teardown alone, with no
    clear, no 3D draw, no overlay and no present. *)
Lemma close_poll_draws_nothing :
  runs (@main_c raylib5) closed_at_once 0 /\
  passes closed_at_once = [(true, [Call CloseWindow tt])] /\
  full_frame [Call CloseWindow tt] = false /\
  ~ close_poll_still_draws closed_at_once.
Proof.
  split; [exact runs_closed_at_once|]. split; [reflexivity|].
  split; [reflexivity|].
  intros H. specialize (H [Call CloseWindow tt] (or_introl eq_refl)).
  discriminate H.
Qed.

(** C2, amended: the close poll is the loop condition, so a poll that
    returns true ends the loop at once: nothing more is drawn, only the
    window is torn down, and this is the last pass.  Every pass whose poll
    returned false runs its frame in full, from the camera update to the
    present: no frame is cut short. *)
Theorem loop_stops_at_the_poll {hdr : RaylibHeader} (tr : trace) (v : Z) :
  runs main_c tr v ->
  (exists frames,
     passes tr =
       map (fun calls => (false, calls)) frames
         ++ [(true, [Call CloseWindow tt])] /\
     Forall (fun calls => names calls = frame_names /\ full_frame calls = true)
       frames) /\
  (forall closing calls, In (closing, calls) (passes tr) ->
     if closing : bool
     then calls = [Call CloseWindow tt] /\ full_frame calls = false
     else names calls = frame_names /\ full_frame calls = true).
Proof.
  intros Hr. apply runs_main_c in Hr. destruct Hr as (cams & -> & _).
  assert (Hfr := iterations_are_frames camera_c cams).
  rewrite iterations_run_calls in Hfr. rewrite passes_run_calls.
  unfold loop_passes. split.
  - exists (loop_frames camera_c cams). split; [reflexivity|exact Hfr].
  - intros closing calls Hin. apply in_app_or in Hin. destruct Hin as [Hin|Hin].
    + apply in_map_iff in Hin. destruct Hin as (calls' & E & Hin).
      injection E as <- <-. rewrite Forall_forall in Hfr. apply Hfr. exact Hin.
    + destruct Hin as [E|[]]. injection E as <- <-. split; reflexivity.
Qed.

Lemma loop_stops_at_the_poll_witness :
  (exists frames,
     passes three_frames =
       map (fun calls => (false, calls)) frames
         ++ [(true, [Call CloseWindow tt])] /\
     Forall (fun calls => names calls = frame_names /\ full_frame calls = true)
       frames) /\
  (forall closing calls, In (closing, calls) (passes three_frames) ->
     if closing : bool
     then calls = [Call CloseWindow tt] /\ full_frame calls = false
     else names calls = frame_names /\ full_frame calls = true).
Proof.
  exact (@loop_stops_at_the_poll raylib5 three_frames 0 runs_three_frames).
Defined.

(* ===================================================================== *)
(** ** C3, C4, C5: inside one iteration                                   *)
(* ===================================================================== *)

Section Iteration.
Context {hdr : RaylibHeader}.

(** Every run of either program is a [run_calls]. *)
Lemma run_of_either u tr v :
  runs main_c tr v \/ runs (main_cpp u) tr v ->
  exists camera cams,
    (camera = camera_c \/ camera = camera_cpp u) /\
    tr = run_calls camera cams /\ v = 0.
Proof.
  intros [H|H].
  - apply runs_main_c in H. destruct H as (cams & -> & ->).
    exists camera_c, cams. auto.
  - apply runs_main_cpp in H. destruct H as (cams & -> & ->).
    exists (camera_cpp u), cams. auto.
Qed.

(** A property of every frame holds in every iteration of every run. *)
Lemma in_every_iteration (P : trace -> Prop) u tr v :
  (forall given moved, P (frame_calls given moved)) ->
  runs main_c tr v \/ runs (main_cpp u) tr v ->
  Forall P (iterations tr).
Proof.
  intros HP H. apply run_of_either in H.
  destruct H as (camera & cams & _ & -> & _). rewrite iterations_run_calls.
  eapply Forall_impl; [|apply loop_frames_shape].
  intros calls (given & moved & ->). apply HP.
Qed.

Lemma text_outside_3d_run_calls camera cams :
  text_outside_3d false (names (run_calls camera cams)) = true.
Proof.
  unfold run_calls, opening. simpl. revert camera.
  induction cams as [|moved cams IH]; intros camera; [reflexivity|].
  simpl. apply IH.
Qed.

End Iteration.

(** C3: in every iteration of every run of either program, the 3D scope is
    entered exactly once and left before the overlay text of that
    iteration is drawn; the text is never drawn inside the 3D scope. *)
Theorem text_after_3d_scope {hdr : RaylibHeader} (u : Camera3D) (tr : trace)
    (v : Z) :
  runs main_c tr v \/ runs (main_cpp u) tr v ->
  Forall (fun calls =>
            count_calls "BeginMode3D" calls = 1%nat /\
            count_calls "EndMode3D" calls = 1%nat /\
            count_calls "DrawText" calls = 1%nat /\
            (exists enter leave text,
               first_call "BeginMode3D" (names calls) = Some enter /\
               first_call "EndMode3D" (names calls) = Some leave /\
               first_call "DrawText" (names calls) = Some text /\
               (enter < leave < text)%nat) /\
            text_outside_3d false (names calls) = true)
    (iterations tr) /\
  text_outside_3d false (names tr) = true.
Proof.
  intros H. split.
  - revert H. apply in_every_iteration. intros given moved.
    repeat split. exists 3%nat, 6%nat, 7%nat. repeat split; lia.
  - apply run_of_either in H. destruct H as (camera & cams & _ & -> & _).
    apply text_outside_3d_run_calls.
Qed.

Lemma text_after_3d_scope_witness :
  Forall (fun calls =>
            count_calls "BeginMode3D" calls = 1%nat /\
            count_calls "EndMode3D" calls = 1%nat /\
            count_calls "DrawText" calls = 1%nat /\
            (exists enter leave text,
               first_call "BeginMode3D" (names calls) = Some enter /\
               first_call "EndMode3D" (names calls) = Some leave /\
               first_call "DrawText" (names calls) = Some text /\
               (enter < leave < text)%nat) /\
            text_outside_3d false (names calls) = true)
    (iterations three_frames) /\
  text_outside_3d false (names three_frames) = true.
Proof.
  apply (@text_after_3d_scope raylib5 stale_camera three_frames 0).
  left. exact runs_three_frames.
Defined.

(** C4: in every iteration of every run of either program, the cube is
    drawn before the grid. *)
Theorem cube_before_grid {hdr : RaylibHeader} (u : Camera3D) (tr : trace)
    (v : Z) :
  runs main_c tr v \/ runs (main_cpp u) tr v ->
  Forall (fun calls =>
            count_calls "DrawCube" calls = 1%nat /\
            count_calls "DrawGrid" calls = 1%nat /\
            exists cube grid,
              first_call "DrawCube" (names calls) = Some cube /\
              first_call "DrawGrid" (names calls) = Some grid /\
              (cube < grid)%nat)
    (iterations tr).
Proof.
  apply in_every_iteration. intros given moved.
  repeat split. exists 4%nat, 5%nat. repeat split; lia.
Qed.

Lemma cube_before_grid_witness :
  Forall (fun calls =>
            count_calls "DrawCube" calls = 1%nat /\
            count_calls "DrawGrid" calls = 1%nat /\
            exists cube grid,
              first_call "DrawCube" (names calls) = Some cube /\
              first_call "DrawGrid" (names calls) = Some grid /\
              (cube < grid)%nat)
    (iterations three_frames_cpp).
Proof.
  apply (@cube_before_grid raylib5 stale_camera three_frames_cpp 0).
  right. exact runs_three_frames_cpp.
Defined.

(** C5: in every iteration of every run of [main.c], the camera the 3D
    scope is opened with is the camera the update of that same iteration
    left behind, not the one the iteration started with. *)
Theorem scope_uses_updated_camera {hdr : RaylibHeader} (tr : trace) (v : Z) :
  runs main_c tr v ->
  Forall (fun calls =>
            exists given moved update scope,
              calls_to "UpdateCamera" calls =
                [Call (UpdateCamera given CAMERA_FREE) moved] /\
              calls_to "BeginMode3D" calls = [Call (BeginMode3D moved) tt] /\
              cameras_left calls = [moved] /\
              cameras_drawn calls = [moved] /\
              first_call "UpdateCamera" (names calls) = Some update /\
              first_call "BeginMode3D" (names calls) = Some scope /\
              (update < scope)%nat)
    (iterations tr) /\
  cameras_drawn tr = cameras_left tr.
Proof.
  intros H. split.
  - assert (H' : runs main_c tr v \/ runs (main_cpp camera_c) tr v)
      by (left; exact H).
    revert H'. apply in_every_iteration. intros given moved.
    exists given, moved, 0%nat, 3%nat. repeat split. lia.
  - apply runs_main_c in H. destruct H as (cams & -> & _).
    rewrite cameras_drawn_run_calls, cameras_left_run_calls. reflexivity.
Qed.

Lemma scope_uses_updated_camera_witness :
  Forall (fun calls =>
            exists given moved update scope,
              calls_to "UpdateCamera" calls =
                [Call (UpdateCamera given (@CAMERA_FREE raylib5)) moved] /\
              calls_to "BeginMode3D" calls = [Call (BeginMode3D moved) tt] /\
              cameras_left calls = [moved] /\
              cameras_drawn calls = [moved] /\
              first_call "UpdateCamera" (names calls) = Some update /\
              first_call "BeginMode3D" (names calls) = Some scope /\
              (update < scope)%nat)
    (iterations three_frames) /\
  cameras_drawn three_frames = cameras_left three_frames.
Proof.
  exact (@scope_uses_updated_camera raylib5 three_frames 0 runs_three_frames).
Defined.

(* ===================================================================== *)
(** ** C6: leaving the loop                                                *)
(* ===================================================================== *)

(** If some poll reports a close request, some poll is the first to. *)
Lemma first_close_request (env : Env) (k : nat) :
  close_requested env k = true ->
  exists n,
    (forall j, (j < n)%nat -> close_requested env j = false) /\
    close_requested env n = true.
Proof.
  intros Hk.
  assert (H : forall m,
            (forall j, (j < m)%nat -> close_requested env j = false) \/
            exists n, (forall j, (j < n)%nat -> close_requested env j = false)
                      /\ close_requested env n = true).
  { induction m as [|m [IH|IH]].
    - left. intros j Hj. lia.
    - destruct (close_requested env m) eqn:Hm.
      + right. exists m. auto.
      + left. intros j Hj. destruct (Nat.eq_dec j m) as [->|Hne];
          [exact Hm|apply IH; lia].
    - right. exact IH. }
  destruct (H k) as [Hnone|Hsome]; [|exact Hsome].
  exists k. auto.
Qed.

(** C6: every run of [main.c] opens the resizable 800x450 window titled
    "Raylib Test", ends with the poll that reports the close request
    followed by the window teardown, and returns 0; the program returns
    exactly when some poll reports a close request.  When the first poll
    already does, no frame is drawn between opening and teardown. *)
Theorem exit_only_on_close_request {hdr : RaylibHeader} :
  (forall tr v,
     runs main_c tr v ->
     v = 0 /\
     startup tr =
       [ Call (SetConfigFlags FLAG_WINDOW_RESIZABLE) tt;
         Call (InitWindow 800 450 "Raylib Test") tt;
         Call (SetTargetFPS 60) tt ] /\
     (exists before frames,
        tr = before ++ [Call WindowShouldClose true; Call CloseWindow tt] /\
        polls before = repeat false frames) /\
     count_calls "CloseWindow" tr = 1%nat /\
     (hd_error (polls tr) = Some true ->
        tr =
          [ Call (SetConfigFlags FLAG_WINDOW_RESIZABLE) tt;
            Call (InitWindow 800 450 "Raylib Test") tt;
            Call (SetTargetFPS 60) tt;
            Call WindowShouldClose true;
            Call CloseWindow tt ] /\
        frames_drawn tr = 0%nat /\ iterations tr = [])) /\
  (forall env,
     close_requested env 0 = true ->
     exists fuel0, forall fuel, (fuel0 <= fuel)%nat ->
       exec fuel env [] main_c =
       Some ([ Call (SetConfigFlags FLAG_WINDOW_RESIZABLE) tt;
               Call (InitWindow 800 450 "Raylib Test") tt;
               Call (SetTargetFPS 60) tt;
               Call WindowShouldClose true;
               Call CloseWindow tt ], 0)) /\
  (forall env,
     (exists fuel tr v, exec fuel env [] main_c = Some (tr, v)) <->
     (exists k, close_requested env k = true)) /\
  (forall env fuel tr v, exec fuel env [] main_c = Some (tr, v) -> v = 0).
Proof.
  split; [|split; [|split]].
  - intros tr v Hr. apply runs_main_c in Hr. destruct Hr as (cams & -> & ->).
    split; [reflexivity|]. split; [apply startup_run_calls|].
    split; [|split].
    + assert (E : forall camera,
                exists before,
                  loop_calls camera cams = before ++ [Call WindowShouldClose true]
                  /\ polls before = repeat false (List.length cams)).
      { induction cams as [|moved cams IH]; intros camera.
        - exists []. split; reflexivity.
        - destruct (IH moved) as (before & E & Hp).
          exists (Call WindowShouldClose false :: frame_calls camera moved
                    ++ before).
          split; [simpl; rewrite E; reflexivity|].
          unfold polls in *. simpl. rewrite Hp. reflexivity. }
      destruct (E camera_c) as (before & E' & Hp).
      exists (opening ++ before), (List.length cams). unfold run_calls.
      rewrite E', <- !app_assoc. split; [reflexivity|].
      unfold polls in *. rewrite collect_app, Hp. reflexivity.
    + apply count_close_run_calls.
    + rewrite polls_run_calls. intros Hhd.
      destruct cams as [|moved cams]; [|discriminate Hhd].
      repeat split.
  - intros env H0.
    destruct (@exec_main_c_with _ env camera_c 0%nat) as [fuel0 He].
    + intros k Hk. lia.
    + exact H0.
    + exists fuel0. exact He.
  - intros env. split.
    + intros (fuel & tr & v & He). apply exec_sound in He.
      destruct He as (tr' & -> & Hr & Ha). apply runs_main_c in Hr.
      destruct Hr as (cams & -> & _). exists (List.length cams).
      assert (H := @answered_by_polls env _ [] Ha (List.length cams) true).
      rewrite polls_run_calls, nth_error_app2, repeat_length, Nat.sub_diag in H
        by (rewrite repeat_length; lia).
      symmetry. apply H. reflexivity.
    + intros [k Hk]. apply first_close_request in Hk.
      destruct Hk as (n & Hf & Ht).
      destruct (@exec_main_c_with _ env camera_c n Hf Ht) as [fuel0 He].
      exists fuel0, (run_calls camera_c (cameras_of env 0 camera_c n)), 0.
      apply He. lia.
  - intros env fuel tr v He. apply exec_sound in He.
    destruct He as (tr' & _ & Hr & _). apply runs_main_c in Hr.
    destruct Hr as (cams & _ & ->). reflexivity.
Qed.

Lemma exit_only_on_close_request_witness :
  (0 = 0 /\
   startup closed_at_once =
     [ Call (SetConfigFlags 4) tt;
       Call (InitWindow 800 450 "Raylib Test") tt;
       Call (SetTargetFPS 60) tt ] /\
   frames_drawn closed_at_once = 0%nat) /\
  (exists fuel0, forall fuel, (fuel0 <= fuel)%nat ->
     exec fuel (close_at 0) [] (@main_c raylib5) = Some (closed_at_once, 0)).
Proof.
  destruct (@exit_only_on_close_request raylib5) as (Hruns & Hexec & _ & _).
  split.
  - destruct (Hruns closed_at_once 0 runs_closed_at_once)
      as (Hv & Hs & _ & _ & Hfirst).
    destruct (Hfirst eq_refl) as (_ & Hframes & _).
    split; [exact Hv|]. split; [exact Hs|exact Hframes].
  - exact (Hexec (close_at 0) eq_refl).
Defined.

(* ===================================================================== *)
(** ** C7, C8: what is drawn                                              *)
(* ===================================================================== *)

Section Drawn.
Context {hdr : RaylibHeader}.

Lemma In_run_calls c camera cams :
  In c (run_calls camera cams) ->
  In c opening \/ (exists closing, c = Call WindowShouldClose closing) \/
  c = Call CloseWindow tt \/
  exists given moved, In c (frame_calls given moved).
Proof.
  unfold run_calls. intros H. apply in_app_or in H. destruct H as [H|H];
    [left; exact H|right].
  apply in_app_or in H. destruct H as [H|[<-|[]]]; [|right; left; reflexivity].
  revert camera H. induction cams as [|moved cams IH]; intros camera H.
  - destruct H as [<-|[]]. left. eauto.
  - destruct H as [<-|H]; [left; eauto|].
    apply in_app_or in H. destruct H as [H|H]; [|eapply IH; exact H].
    right. right. eauto.
Qed.

Lemma scene_of_run_calls camera cams :
  calls_to "DrawCube" (run_calls camera cams)
    = repeat the_cube (List.length cams) /\
  calls_to "DrawGrid" (run_calls camera cams)
    = repeat the_grid (List.length cams) /\
  calls_to "DrawText" (run_calls camera cams)
    = repeat the_label (List.length cams).
Proof.
  unfold calls_to, run_calls, opening. simpl. revert camera.
  induction cams as [|moved cams IH]; intros camera; [repeat split|].
  destruct (IH moved) as (Hc & Hg & Ht). simpl.
  rewrite Hc, Hg, Ht. repeat split.
Qed.

End Drawn.

(** The literals the scene is written with denote 0, 1 and 2. *)
Lemma scene_literals :
  F.zero = float_lit 0 0 /\ F.one = float_lit 1 0 /\ F.two = float_lit 2 0.
Proof. repeat split. Qed.

(** C7: when the close signal is false for three polls and then true,
    [main.c] returns after exactly three iterations, and each of them
    draws one red 2x2x2 cube at the origin, one grid of 10 slices spaced
    1.0 and the label "Test" at (10,10), size 16, in opaque white.  The
    whole run performs three frames and no more: three cubes, three grids
    and three labels are drawn in all, and by name its calls are the
    startup, three times a poll and a frame, the last poll and
    [CloseWindow]. *)
Theorem three_frames_of_the_scene {hdr : RaylibHeader} :
  (forall tr v,
     runs main_c tr v ->
     polls tr = [false; false; false; true] ->
     List.length (iterations tr) = 3%nat /\
     frames_drawn tr = 3%nat /\
     Forall (fun calls => full_frame calls = true /\ draws_the_scene calls)
       (iterations tr) /\
     performs_frames 3 tr /\
     names tr = run_names 3 /\
     calls_to "DrawCube" tr = [the_cube; the_cube; the_cube] /\
     calls_to "DrawGrid" tr = [the_grid; the_grid; the_grid] /\
     calls_to "DrawText" tr = [the_label; the_label; the_label]) /\
  (forall env,
     close_requested env 0 = false -> close_requested env 1 = false ->
     close_requested env 2 = false -> close_requested env 3 = true ->
     exists tr fuel0,
       (forall fuel, (fuel0 <= fuel)%nat ->
          exec fuel env [] main_c = Some (tr, 0)) /\
       polls tr = [false; false; false; true] /\
       performs_frames 3 tr /\
       names tr = run_names 3).
Proof.
  split.
  - intros tr v Hr Hp.
    assert (Hit : Forall (fun calls => full_frame calls = true
                                       /\ draws_the_scene calls)
                    (iterations tr)).
    { assert (H' : runs main_c tr v \/ runs (main_cpp camera_c) tr v)
        by (left; exact Hr).
      revert H'. apply in_every_iteration. intros given moved.
      repeat split. }
    apply runs_main_c in Hr. destruct Hr as (cams & -> & _).
    apply (@polls_fix_frames _ camera_c cams 3%nat) in Hp.
    rewrite iterations_run_calls, length_loop_frames, frames_drawn_run_calls.
    rewrite iterations_run_calls in Hit.
    destruct (scene_of_run_calls camera_c cams) as (Hc & Hg & Ht).
    assert (Hpf := @run_calls_performs_frames _ camera_c cams 3%nat Hp).
    rewrite Hc, Hg, Ht, names_of_run_calls, Hp.
    split; [reflexivity|]. split; [reflexivity|]. split; [exact Hit|].
    split; [exact Hpf|]. repeat split.
  - intros env H0 H1 H2 H3.
    destruct (@exec_main_c_with _ env camera_c 3%nat) as [fuel0 He].
    + intros [|[|[|k]]] Hk; (assumption || lia).
    + exact H3.
    + exists (run_calls camera_c (cameras_of env 0 camera_c 3)), fuel0.
      split; [exact He|]. split; [rewrite polls_run_calls; reflexivity|].
      split; [apply run_calls_performs_frames; reflexivity|].
      rewrite names_of_run_calls. reflexivity.
Qed.

Lemma three_frames_of_the_scene_witness :
  (List.length (iterations three_frames) = 3%nat /\
   frames_drawn three_frames = 3%nat /\
   Forall (fun calls => full_frame calls = true
                        /\ @draws_the_scene raylib5 calls)
     (iterations three_frames) /\
   performs_frames 3 three_frames /\
   names three_frames = run_names 3 /\
   calls_to "DrawCube" three_frames
     = [@the_cube raylib5; @the_cube raylib5; @the_cube raylib5] /\
   calls_to "DrawGrid" three_frames = [the_grid; the_grid; the_grid] /\
   calls_to "DrawText" three_frames = [the_label; the_label; the_label]) /\
  (exists tr fuel0,
     (forall fuel, (fuel0 <= fuel)%nat ->
        exec fuel (close_at 3) [] (@main_c raylib5) = Some (tr, 0)) /\
     polls tr = [false; false; false; true] /\
     performs_frames 3 tr /\
     names tr = run_names 3).
Proof.
  destruct (@three_frames_of_the_scene raylib5) as [Hruns Hexec].
  split.
  - apply (Hruns three_frames 0); [exact runs_three_frames|reflexivity].
  - apply (Hexec (close_at 3)); reflexivity.
Defined.

(** C8: throughout every run of either program, every cube, grid and
    label drawn is the one written at startup; the camera is handed to
    [UpdateCamera] exactly once per iteration, and what one update leaves
    is what the 3D scope of that iteration and the next update get:
    nothing else changes it. *)
Theorem only_the_camera_changes {hdr : RaylibHeader} (u : Camera3D)
    (tr : trace) (v : Z) :
  runs main_c tr v \/ runs (main_cpp u) tr v ->
  (forall c, In c tr ->
     (name c = "DrawCube" -> c = the_cube) /\
     (name c = "DrawGrid" -> c = the_grid) /\
     (name c = "DrawText" -> c = the_label)) /\
  Forall (fun calls => draws_the_scene calls /\
                       count_calls "UpdateCamera" calls = 1%nat)
    (iterations tr) /\
  (exists start,
     (runs main_c tr v /\ start = camera_c \/
      runs (main_cpp u) tr v /\ start = camera_cpp u) /\
     cameras_given tr = removelast (start :: cameras_left tr)) /\
  cameras_drawn tr = cameras_left tr.
Proof.
  intros H. split; [|split; [|split]].
  - apply run_of_either in H. destruct H as (camera & cams & _ & -> & _).
    intros c Hin. apply In_run_calls in Hin.
    destruct Hin as [Hin|[(closing & ->)|[->|(given & moved & Hin)]]].
    + simpl in Hin.
      repeat (destruct Hin as [<-|Hin]; [repeat split; discriminate|]).
      destruct Hin.
    + repeat split; discriminate.
    + repeat split; discriminate.
    + simpl in Hin.
      repeat (destruct Hin as [<-|Hin];
              [repeat split; intros E; (discriminate E || reflexivity)|]).
      destruct Hin.
  - revert H. apply in_every_iteration. intros given moved. repeat split.
  - destruct H as [H|H].
    + exists camera_c. split; [left; auto|].
      apply runs_main_c in H. destruct H as (cams & -> & _).
      rewrite cameras_given_run_calls, cameras_left_run_calls. reflexivity.
    + exists (camera_cpp u). split; [right; auto|].
      apply runs_main_cpp in H. destruct H as (cams & -> & _).
      rewrite cameras_given_run_calls, cameras_left_run_calls. reflexivity.
  - apply run_of_either in H. destruct H as (camera & cams & _ & -> & _).
    rewrite cameras_drawn_run_calls, cameras_left_run_calls. reflexivity.
Qed.

Lemma only_the_camera_changes_witness :
  Forall (fun calls => @draws_the_scene raylib5 calls /\
                       count_calls "UpdateCamera" calls = 1%nat)
    (iterations three_frames) /\
  cameras_drawn three_frames = cameras_left three_frames.
Proof.
  destruct (@only_the_camera_changes raylib5 stale_camera three_frames 0
              (or_introl runs_three_frames)) as (_ & Hit & _ & Hcam).
  split; [exact Hit|exact Hcam].
Defined.

(* ===================================================================== *)
(** ** C9, C10: the two variants, and determinism                         *)
(* ===================================================================== *)

Section Variants.
Context {hdr : RaylibHeader}.

Lemma other_calls_run_calls camera camera' cams :
  other_calls (run_calls camera cams) = other_calls (run_calls camera' cams).
Proof.
  unfold other_calls, run_calls. rewrite !filter_app. f_equal. f_equal.
  destruct cams as [|moved cams]; reflexivity.
Qed.

Lemma names_run_calls camera camera' cams :
  names (run_calls camera cams) = names (run_calls camera' cams).
Proof.
  unfold names, run_calls. rewrite !map_app. f_equal. f_equal.
  destruct cams as [|moved cams]; reflexivity.
Qed.

(** The answers of a run determine it. *)
Lemma run_calls_determined camera cams1 cams2 :
  cameras_left (run_calls camera cams1) = cameras_left (run_calls camera cams2) ->
  run_calls camera cams1 = run_calls camera cams2.
Proof.
  rewrite !cameras_left_run_calls. intros ->. reflexivity.
Qed.

(** Two environments that answer alike are the same to every program. *)
Lemma exec_same_answers {R : Type} (env1 env2 : Env) :
  (forall k, close_requested env1 k = close_requested env2 k) ->
  (forall k camera mode,
     camera_moved env1 k camera mode = camera_moved env2 k camera mode) ->
  forall fuel done (t : itree raylibE R),
    exec fuel env1 done t = exec fuel env2 done t.
Proof.
  intros Hc Hm. induction fuel as [|fuel IH]; intros done t; [reflexivity|].
  simpl. destruct (observe t) as [v|t'|X e k]; [reflexivity|apply IH|].
  assert (E : answer env1 done e = answer env2 done e).
  { destruct e; simpl; auto. }
  rewrite E. apply IH.
Qed.

End Variants.

(** C9: the two variants start from cameras that differ in the position
    alone, (10,10,10) against (5,5,5), and are otherwise the same program:
    started from one and the same camera they have the same runs, and
    against one and the same environment they make the same calls with the
    same arguments and return the same value.  As they are, whenever the
    polls and the camera updates answer alike, the two make the same calls
    with the same arguments, but for the camera handed to the very first
    update. *)
Theorem variants_differ_in_start_position {hdr : RaylibHeader} (u : Camera3D) :
  (position camera_c = mkVector3 F.ten F.ten F.ten /\
   position (camera_cpp u) = mkVector3 F.five F.five F.five /\
   target camera_c = target (camera_cpp u) /\
   up camera_c = up (camera_cpp u) /\
   fovy camera_c = fovy (camera_cpp u) /\
   projection camera_c = projection (camera_cpp u)) /\
  (forall camera tr v,
     runs (main_c_with camera) tr v <-> runs (main_cpp_with camera) tr v) /\
  (forall camera env fuel,
     exec fuel env [] (main_c_with camera) =
     exec fuel env [] (main_cpp_with camera)) /\
  (forall tr_c v_c tr_cpp v_cpp,
     runs main_c tr_c v_c -> runs (main_cpp u) tr_cpp v_cpp ->
     polls tr_c = polls tr_cpp ->
     cameras_left tr_c = cameras_left tr_cpp ->
     v_c = v_cpp /\
     names tr_c = names tr_cpp /\
     other_calls tr_c = other_calls tr_cpp /\
     tl (cameras_given tr_c) = tl (cameras_given tr_cpp)).
Proof.
  split; [repeat split|]. split; [|split].
  - intros camera tr v. rewrite runs_main_c_with, runs_main_cpp_with.
    reflexivity.
  - intros camera env fuel. rewrite main_c_with_loop, main_cpp_with_loop.
    reflexivity.
  - intros tr_c v_c tr_cpp v_cpp Hc Hcpp _ Hcams.
    apply runs_main_c in Hc. destruct Hc as (cams & -> & ->).
    apply runs_main_cpp in Hcpp. destruct Hcpp as (cams' & -> & ->).
    rewrite !cameras_left_run_calls in Hcams. subst cams'.
    split; [reflexivity|]. split; [apply names_run_calls|].
    split; [apply other_calls_run_calls|].
    rewrite !cameras_given_run_calls.
    destruct cams as [|moved cams]; reflexivity.
Qed.

Lemma variants_differ_in_start_position_witness :
  0 = 0 /\
  names three_frames = names three_frames_cpp_alike /\
  other_calls three_frames = other_calls three_frames_cpp_alike /\
  tl (cameras_given three_frames) = tl (cameras_given three_frames_cpp_alike).
Proof.
  destruct (@variants_differ_in_start_position raylib5 stale_camera)
    as (_ & _ & _ & H).
  apply (H three_frames 0 three_frames_cpp_alike 0).
  - exact runs_three_frames.
  - apply runs_main_cpp. unfold three_frames_cpp_alike. eauto.
  - vm_compute. reflexivity.
  - vm_compute. reflexivity.
Defined.

(** C10: the close polls and the camera updates are the only inputs.  Two
    runs of [main.c] in which they answer alike are the same run with the
    same exit code; so are two runs of [main.cpp], whatever its camera
    held before it was initialised; and two environments that answer
    alike cannot be told apart by either program. *)
Theorem same_answers_same_run {hdr : RaylibHeader} :
  (forall tr1 v1 tr2 v2,
     runs main_c tr1 v1 -> runs main_c tr2 v2 ->
     polls tr1 = polls tr2 -> cameras_left tr1 = cameras_left tr2 ->
     tr1 = tr2 /\ v1 = v2) /\
  (forall u1 u2 tr1 v1 tr2 v2,
     runs (main_cpp u1) tr1 v1 -> runs (main_cpp u2) tr2 v2 ->
     polls tr1 = polls tr2 -> cameras_left tr1 = cameras_left tr2 ->
     tr1 = tr2 /\ v1 = v2) /\
  (forall env1 env2,
     (forall k, close_requested env1 k = close_requested env2 k) ->
     (forall k camera mode,
        camera_moved env1 k camera mode = camera_moved env2 k camera mode) ->
     forall fuel u,
       exec fuel env1 [] main_c = exec fuel env2 [] main_c /\
       exec fuel env1 [] (main_cpp u) = exec fuel env2 [] (main_cpp u)).
Proof.
  split; [|split].
  - intros tr1 v1 tr2 v2 H1 H2 _ Hcams.
    apply runs_main_c in H1. destruct H1 as (cams1 & -> & ->).
    apply runs_main_c in H2. destruct H2 as (cams2 & -> & ->).
    split; [apply run_calls_determined; exact Hcams|reflexivity].
  - intros u1 u2 tr1 v1 tr2 v2 H1 H2 _ Hcams.
    apply runs_main_cpp in H1. destruct H1 as (cams1 & -> & ->).
    apply runs_main_cpp in H2. destruct H2 as (cams2 & -> & ->).
    change (camera_cpp u2) with (camera_cpp u1) in *.
    split; [apply run_calls_determined; exact Hcams|reflexivity].
  - intros env1 env2 Hc Hm fuel u.
    split; apply exec_same_answers; assumption.
Qed.

Lemma same_answers_same_run_witness :
  three_frames_cpp =
    @run_calls raylib5 (@camera_cpp raylib5 (@camera_c raylib5))
      (cameras_left three_frames_cpp) /\
  0 = 0.
Proof.
  destruct (@same_answers_same_run raylib5) as (_ & H & _).
  apply (H stale_camera (@camera_c raylib5)).
  - exact runs_three_frames_cpp.
  - apply runs_main_cpp. eauto.
  - vm_compute. reflexivity.
  - vm_compute. reflexivity.
Defined.

(* ===================================================================== *)
(** ** Started runs: one rule for each construct of the programs           *)
(* ===================================================================== *)

Lemma startedN_mono {R : Type} (n m : nat) (t : itree raylibE R) tr :
  (n <= m)%nat -> startedN n t tr -> startedN m t tr.
Proof.
  revert m t tr. induction n as [|n IH]; intros m t tr Hle H.
  - simpl in H. subst tr. destruct m; simpl; auto.
  - destruct m as [|m]; [lia|]. simpl in *. destruct H as [H|H]; [left; exact H|].
    right. destruct (observe t) as [v'|t'|X e k]; auto.
    + apply IH; [lia|exact H].
    + destruct H as (ans & tr' & -> & H). exists ans, tr'.
      split; [reflexivity|]. apply IH; [lia|exact H].
Qed.

Lemma startedN_nil {R : Type} (n : nat) (t : itree raylibE R) :
  startedN n t [].
Proof. destruct n; simpl; auto. Qed.

Lemma started_startedN {R : Type} (t : itree raylibE R) tr :
  started t tr <-> exists n, startedN n t tr.
Proof.
  unfold started. split.
  - intros H. remember (observe t) as ot eqn:Hot. revert t Hot.
    induction H as [ot|t' tr _ IH|X e k ans tr _ IH]; intros t Hot.
    + exists O. reflexivity.
    + destruct (IH t' eq_refl) as [n Hn]. exists (S n). simpl. right.
      rewrite <- Hot. exact Hn.
    + destruct (IH (k ans) eq_refl) as [n Hn]. exists (S n). simpl. right.
      rewrite <- Hot. eauto.
  - intros [n H]. revert t tr H. induction n as [|n IH]; intros t tr H.
    + simpl in H. subst tr. constructor.
    + simpl in H. destruct H as [->|H]; [constructor|].
      destruct (observe t) as [v'|t'|X e k].
      * destruct H.
      * constructor. apply IH. exact H.
      * destruct H as (ans & tr' & -> & H). constructor. apply IH. exact H.
Qed.

(** Every beginning of a run is a started run. *)
Lemma runs_started {R : Type} (t : itree raylibE R) tr rest v :
  runs t (tr ++ rest) v -> started t tr.
Proof.
  unfold runs, started. intros H. remember (tr ++ rest) as all eqn:E.
  revert tr E. induction H as [v|t' all v _ IH|X e k ans all v _ IH];
    intros tr E.
  - destruct tr; [constructor|discriminate].
  - destruct tr as [|c tr]; [constructor|]. constructor. apply IH. exact E.
  - destruct tr as [|c tr]; [constructor|]. simpl in E.
    injection E as <- ->. constructor. apply IH. reflexivity.
Qed.

Lemma started_Ret_iff {R : Type} (v0 : R) tr :
  started (Ret v0 : itree raylibE R) tr <-> tr = [].
Proof.
  split.
  - intros H. apply started_startedN in H. destruct H as [[|n] H]; [exact H|].
    simpl in H. destruct H as [H|[]]. exact H.
  - intros ->. constructor.
Qed.

Lemma startedN_bind_inv {A R : Type} (n : nat) (t : itree raylibE A)
    (k : A -> itree raylibE R) tr :
  startedN n (ITree.bind t k) tr ->
  startedN n t tr \/
  exists tr1 x tr2, runsN n t tr1 x /\ startedN n (k x) tr2 /\ tr = tr1 ++ tr2.
Proof.
  revert t tr. induction n as [|n IH]; intros t tr H.
  - left. exact H.
  - change (startedN (S n) (ITree.bind t k) tr) with
      (tr = [] \/
       match observe (ITree.bind t k) with
       | RetF _ => False
       | TauF t' => startedN n t' tr
       | VisF e h => exists ans tr', tr = Call e ans :: tr' /\ startedN n (h ans) tr'
       end) in H.
    destruct H as [->|H]; [left; apply startedN_nil|].
    change (observe (ITree.bind t k)) with
      (observe (match observe t with
                | RetF x => k x
                | TauF t0 => Tau (ITree.bind t0 k)
                | VisF e h => Vis e (fun a => ITree.bind (h a) k)
                end)) in H.
    simpl (startedN (S n) t tr). simpl (runsN (S n) t).
    destruct (observe t) as [x|t0|X e h].
    + right. exists [], x, tr. repeat split. simpl. right. exact H.
    + simpl in H. apply IH in H.
      destruct H as [H|(tr1 & x & tr2 & H1 & H2 & ->)]; [left; right; exact H|].
      right. exists tr1, x, tr2. repeat split; [exact H1|].
      apply startedN_mono with n; [lia|exact H2].
    + simpl in H. destruct H as (ans & tr' & -> & H). apply IH in H.
      destruct H as [H|(tr1 & x & tr2 & H1 & H2 & ->)]; [left; right; eauto|].
      right. exists (Call e ans :: tr1), x, tr2. repeat split; [eauto|].
      apply startedN_mono with n; [lia|exact H2].
Qed.

Lemma started_bind_inv {A R : Type} (t : itree raylibE A)
    (k : A -> itree raylibE R) tr :
  started (ITree.bind t k) tr ->
  started t tr \/
  exists tr1 x tr2, runs t tr1 x /\ started (k x) tr2 /\ tr = tr1 ++ tr2.
Proof.
  intros H. apply started_startedN in H. destruct H as [n H].
  apply startedN_bind_inv in H.
  destruct H as [H|(tr1 & x & tr2 & H1 & H2 & ->)].
  - left. apply started_startedN. eauto.
  - right. exists tr1, x, tr2.
    repeat split; [apply runs_runsN|apply started_startedN]; eauto.
Qed.

Lemma started_perform_bind {X R : Type} (e : raylibE X)
    (k : X -> itree raylibE R) tr :
  started (x <- perform e;; k x) tr ->
  tr = [] \/ exists ans tr', tr = Call e ans :: tr' /\ started (k ans) tr'.
Proof.
  intros H. apply started_bind_inv in H.
  destruct H as [H|(tr1 & ans & tr2 & H1 & H2 & ->)].
  - apply started_startedN in H. destruct H as [[|n] H]; [left; exact H|].
    simpl in H. destruct H as [H|(ans & tr' & -> & H)]; [left; exact H|].
    right. exists ans, []. assert (tr' = []) as ->.
    { destruct n as [|n]; [exact H|]. simpl in H. destruct H as [H|[]]. exact H. }
    split; [reflexivity|constructor].
  - apply runs_perform_iff in H1. subst tr1. right. exists ans, tr2.
    split; [reflexivity|exact H2].
Qed.

Lemma startedN_while_inv {St : Type} (cond : itree raylibE bool)
    (body : St -> itree raylibE St) (n : nat) s tr :
  startedN n (while cond body s) tr -> while_started cond body s tr.
Proof.
  revert s tr. induction n as [|n IH]; intros s tr H.
  - simpl in H. subst tr. apply while_in_cond. constructor.
  - unfold while in H.
    change (startedN (S n) (ITree.iter ?step s) tr) with
      (startedN (S n)
         (ITree.bind (step s)
            (fun lr => match lr with
                       | inl l => Tau (ITree.iter step l)
                       | inr v => Ret v
                       end)) tr) in H.
    apply startedN_bind_inv in H.
    destruct H as [H|(tr1 & lr & tr2 & H1 & H2 & ->)].
    + apply startedN_bind_inv in H.
      destruct H as [H|(trc & c & trb & Hc & Hb & ->)].
      * apply while_in_cond. apply started_startedN. eauto.
      * assert (Hc' : runs cond trc c) by (apply runs_runsN; eauto).
        destruct c.
        -- apply while_in_body; [exact Hc'|].
           apply startedN_bind_inv in Hb.
           destruct Hb as [Hb|(trb' & s1 & tre & Hb & He & ->)].
           ++ apply started_startedN. eauto.
           ++ simpl in He. destruct He as [->|[]]. rewrite app_nil_r.
              apply runs_started with (rest := []) (v := s1).
              rewrite app_nil_r. apply runs_runsN. eauto.
        -- simpl in Hb. destruct Hb as [->|[]]. rewrite app_nil_r.
           apply while_in_cond.
           apply runs_started with (rest := []) (v := false).
           rewrite app_nil_r. exact Hc'.
    + apply runsN_bind_inv in H1. destruct H1 as (trc & c & trb & Hc & Hb & ->).
      assert (Hc' : runs cond trc c) by (apply runs_runsN; eauto).
      destruct c.
      * apply runsN_bind_inv in Hb.
        destruct Hb as (trb' & s1 & tre & Hb & He & ->).
        simpl in He. destruct He as [-> ->]. rewrite app_nil_r, <- app_assoc.
        apply while_later with s1; [exact Hc'|apply runs_runsN; eauto|].
        simpl in H2. destruct H2 as [->|H2].
        -- apply while_in_cond. constructor.
        -- apply IH. exact H2.
      * simpl in Hb. destruct Hb as [-> ->]. simpl in H2.
        destruct H2 as [->|[]]. rewrite !app_nil_r. apply while_in_cond.
        apply runs_started with (rest := []) (v := false).
        rewrite app_nil_r. exact Hc'.
Qed.

Lemma started_while_inv {St : Type} (cond : itree raylibE bool)
    (body : St -> itree raylibE St) s tr :
  started (while cond body s) tr -> while_started cond body s tr.
Proof.
  intros H. apply started_startedN in H. destruct H as [n H].
  eapply startedN_while_inv; eauto.
Qed.

(* ===================================================================== *)
(** ** The started runs of the two programs                                *)
(* ===================================================================== *)

Section Started.
Context {hdr : RaylibHeader}.

Lemma loop_calls_start camera cams :
  loop_calls camera cams = loop_start camera cams ++ [Call WindowShouldClose true].
Proof.
  revert camera. induction cams as [|moved cams IH]; intros camera;
    [reflexivity|].
  simpl. rewrite IH. reflexivity.
Qed.

Lemma loop_start_app camera cams moved :
  loop_start camera (cams ++ [moved]) =
  loop_start camera cams
    ++ Call WindowShouldClose false :: frame_calls (last cams camera) moved.
Proof.
  revert camera. induction cams as [|c cams IH]; intros camera;
    [reflexivity|].
  change ((c :: cams) ++ [moved]) with (c :: (cams ++ [moved])).
  rewrite last_cons. cbn [loop_start]. rewrite IH.
  rewrite <- app_comm_cons, <- app_assoc. reflexivity.
Qed.

Lemma started_loop_cond tr :
  started loop_cond tr ->
  tr = [] \/ exists closing, tr = [Call WindowShouldClose closing].
Proof.
  unfold loop_cond. intros H. apply started_perform_bind in H.
  destruct H as [->|(ans & tr' & -> & H)]; [left; reflexivity|].
  apply started_Ret_iff in H. subst tr'. right. eauto.
Qed.

Lemma started_loop_body camera tr :
  started (loop_body camera) tr ->
  exists moved rest, frame_calls camera moved = tr ++ rest.
Proof.
  unfold loop_body. intros H.
  apply started_perform_bind in H.
  destruct H as [->|(moved & tr' & -> & H)];
    [exists camera, (frame_calls camera camera); reflexivity|].
  exists moved.
  repeat (apply started_perform_bind in H;
          destruct H as [->|([] & ? & -> & H)];
          [eexists; reflexivity|]).
  apply started_Ret_iff in H. subst. exists []. reflexivity.
Qed.

Lemma while_started_loop camera tr :
  while_started loop_cond loop_body camera tr ->
  exists cams rest, loop_calls camera cams = tr ++ rest.
Proof.
  induction 1 as [s tr Hc|s tr1 tr2 Hc Hb|s tr1 tr2 s1 tr3 Hc Hb _ IH].
  - apply started_loop_cond in Hc. destruct Hc as [->|([|] & ->)].
    + exists [], [Call WindowShouldClose true]. reflexivity.
    + exists [], []. reflexivity.
    + exists [s]. eexists. reflexivity.
  - apply runs_loop_cond in Hc. subst tr1. apply started_loop_body in Hb.
    destruct Hb as (moved & rest & E). exists [moved].
    exists (rest ++ [Call WindowShouldClose true]).
    cbn [loop_calls]. rewrite E. simpl. rewrite <- ?app_assoc. reflexivity.
  - apply runs_loop_cond in Hc. apply runs_loop_body in Hb. subst tr1 tr2.
    destruct IH as (cams & rest & E). exists (s1 :: cams), rest.
    cbn [loop_calls]. rewrite E. simpl. rewrite <- ?app_assoc. reflexivity.
Qed.

(** A started run of [main.c] from a given camera is the beginning of one
    of its runs, and every beginning of a run is a started run. *)
Lemma started_main_c_with camera tr :
  started (main_c_with camera) tr <->
  exists cams rest, run_calls camera cams = tr ++ rest.
Proof.
  split.
  - rewrite main_c_with_loop. intros H. unfold run_calls, opening.
    do 3 (apply started_perform_bind in H;
          destruct H as [->|([] & ? & -> & H)];
          [exists []; eexists; reflexivity|]).
    apply started_bind_inv in H.
    destruct H as [H|(tr1 & cam' & tr2 & Hw & H & ->)].
    + apply started_while_inv, while_started_loop in H.
      destruct H as (cams & rest & E). exists cams.
      exists (rest ++ [Call CloseWindow tt]). simpl. rewrite E, <- app_assoc.
      reflexivity.
    + apply runs_while_iff, while_runs_loop in Hw.
      destruct Hw as (cams & -> & _). exists cams.
      apply started_perform_bind in H.
      destruct H as [->|([] & tr' & -> & H)].
      * exists [Call CloseWindow tt]. rewrite app_nil_r. reflexivity.
      * apply started_Ret_iff in H. subst tr'. exists [].
        simpl. rewrite <- !app_assoc. reflexivity.
  - intros (cams & rest & E). apply runs_started with (rest := rest) (v := 0).
    rewrite <- E. apply runs_main_c_with. eauto.
Qed.

Lemma started_main_c tr :
  started main_c tr <-> exists cams rest, run_calls camera_c cams = tr ++ rest.
Proof. unfold main_c. apply started_main_c_with. Qed.

Lemma started_main_cpp u tr :
  started (main_cpp u) tr <->
  exists cams rest, run_calls (camera_cpp u) cams = tr ++ rest.
Proof.
  unfold main_cpp. rewrite main_cpp_with_loop, <- main_c_with_loop.
  apply started_main_c_with.
Qed.

Lemma started_of_either u tr :
  started main_c tr \/ started (main_cpp u) tr ->
  exists camera cams rest, run_calls camera cams = tr ++ rest.
Proof.
  intros [H|H].
  - apply started_main_c in H. destruct H as (cams & rest & E). eauto.
  - apply started_main_cpp in H. destruct H as (cams & rest & E). eauto.
Qed.

End Started.

(* ===================================================================== *)
(** ** The runner, stopped early                                           *)
(* ===================================================================== *)

Lemma answered_by_app env tr1 : forall done tr2,
  answered_by env done (tr1 ++ tr2) <->
  answered_by env done tr1 /\ answered_by env (done ++ tr1) tr2.
Proof.
  induction tr1 as [|c tr1 IH]; intros done tr2.
  - simpl. rewrite app_nil_r. tauto.
  - simpl. rewrite IH, <- app_assoc. simpl. tauto.
Qed.

Lemma calls_within_sound {R : Type} (fuel : nat) env (t : itree raylibE R) :
  forall done,
  exists tr, calls_within fuel env done t = done ++ tr /\
             started t tr /\ answered_by env done tr.
Proof.
  unfold started. revert t. induction fuel as [|fuel IH]; intros t done.
  - exists []. rewrite app_nil_r. repeat split. constructor.
  - simpl. destruct (observe t) as [v|t'|X e k].
    + exists []. rewrite app_nil_r. repeat split. constructor.
    + destruct (IH t' done) as (tr & E & H & Ha). exists tr.
      repeat split; [exact E|constructor; exact H|exact Ha].
    + destruct (IH (k (answer env done e)) (done ++ [Call e (answer env done e)]))
        as (tr & E & H & Ha).
      exists (Call e (answer env done e) :: tr). rewrite E, <- app_assoc.
      repeat split; [constructor; exact H|exact Ha].
Qed.

Lemma calls_within_complete {R : Type} env (t : itree raylibE R) tr :
  started t tr ->
  forall done, answered_by env done tr ->
  exists fuel, calls_within fuel env done t = done ++ tr.
Proof.
  unfold started. intros H. remember (observe t) as ot eqn:Hot. revert t Hot.
  induction H as [ot|t' tr _ IH|X e k ans tr _ IH]; intros t Hot done Ha.
  - exists O. simpl. rewrite app_nil_r. reflexivity.
  - destruct (IH t' eq_refl done Ha) as [fuel E]. exists (S fuel). simpl.
    rewrite <- Hot. exact E.
  - destruct Ha as [-> Ha].
    destruct (IH (k (answer env done e)) eq_refl _ Ha) as [fuel E].
    exists (S fuel). simpl. rewrite <- Hot, E, <- app_assoc. reflexivity.
Qed.

(** With more fuel the calls made so far stay, and more may follow. *)
Lemma calls_within_grows {R : Type} (fuel fuel' : nat) env
    (t : itree raylibE R) :
  (fuel <= fuel')%nat ->
  forall done,
  exists more,
    calls_within fuel' env done t = calls_within fuel env done t ++ more.
Proof.
  revert fuel' t. induction fuel as [|fuel IH]; intros fuel' t Hle done.
  - destruct (calls_within_sound fuel' env t done) as (tr & E & _).
    exists tr. exact E.
  - destruct fuel' as [|fuel']; [lia|]. simpl.
    destruct (observe t) as [v|t'|X e k].
    + exists []. rewrite app_nil_r. reflexivity.
    + apply IH. lia.
    + apply IH. lia.
Qed.

(* ===================================================================== *)
(** ** At every moment: the order of the calls                             *)
(* ===================================================================== *)

Lemma stage_after_app s ns1 ns2 :
  stage_after s (ns1 ++ ns2) =
  match stage_after s ns1 with
  | Some s1 => stage_after s1 ns2
  | None => None
  end.
Proof.
  revert s. induction ns1 as [|fn ns1 IH]; intros s; [reflexivity|].
  simpl. destruct (next_stage s fn); [apply IH|reflexivity].
Qed.

Section Order.
Context {hdr : RaylibHeader}.

Lemma stage_after_loop_start camera cams :
  stage_after BetweenFrames (names (loop_start camera cams)) =
  Some BetweenFrames.
Proof.
  revert camera. induction cams as [|moved cams IH]; intros camera;
    [reflexivity|].
  simpl. apply IH.
Qed.

Lemma run_calls_start camera cams :
  run_calls camera cams =
  (opening ++ loop_start camera cams)
    ++ [Call WindowShouldClose true; Call CloseWindow tt].
Proof.
  unfold run_calls. rewrite loop_calls_start, <- !app_assoc. reflexivity.
Qed.

Lemma stage_after_run_calls camera cams :
  stage_after NoWindow (names (run_calls camera cams)) = Some WindowClosed.
Proof.
  rewrite run_calls_start. unfold names. rewrite !map_app, <- app_assoc.
  simpl. rewrite stage_after_app.
  fold (names (loop_start camera cams)). rewrite stage_after_loop_start.
  reflexivity.
Qed.

Lemma In_opening c :
  In c opening ->
  c = Call (SetConfigFlags FLAG_WINDOW_RESIZABLE) tt \/
  c = Call (InitWindow 800 450 "Raylib Test") tt \/
  c = Call (SetTargetFPS 60) tt.
Proof. simpl. intuition auto. Qed.

End Order.

(** X1: at every moment of every execution of either program, also of one
    that never ends, the calls made so far are in the order raylib wants:
    flags before the window, polls and camera updates between frames,
    clear and text inside a frame and outside the 3D mode, cube and grid
    inside the 3D mode, nothing after [CloseWindow]. *)
Theorem calls_always_in_order {hdr : RaylibHeader} (u : Camera3D) (tr : trace) :
  started main_c tr \/ started (main_cpp u) tr ->
  exists s, stage_after NoWindow (names tr) = Some s.
Proof.
  intros H. apply started_of_either in H.
  destruct H as (camera & cams & rest & E).
  assert (Hall := stage_after_run_calls camera cams).
  rewrite E in Hall. unfold names in Hall. rewrite map_app, stage_after_app in Hall.
  fold (names tr) in Hall.
  destruct (stage_after NoWindow (names tr)) as [s|]; [eauto|discriminate].
Qed.

Lemma stopped_in_3d_started : started (@main_c raylib5) stopped_in_3d.
Proof.
  destruct (calls_within_sound 20 never_closed (@main_c raylib5) [])
    as (tr & E & H & _).
  simpl app in E.
  assert (E' : stopped_in_3d = calls_within 20 never_closed [] (@main_c raylib5))
    by (vm_compute; reflexivity).
  rewrite E', E. exact H.
Qed.

Lemma calls_always_in_order_witness :
  exists s, stage_after NoWindow (names stopped_in_3d) = Some s.
Proof.
  apply (@calls_always_in_order raylib5 stale_camera stopped_in_3d).
  left. exact stopped_in_3d_started.
Defined.

(** X2: when either program returns, every frame and every 3D mode it
    began has been ended and the window is closed. *)
Theorem returns_with_window_closed {hdr : RaylibHeader} (u : Camera3D)
    (tr : trace) (v : Z) :
  runs main_c tr v \/ runs (main_cpp u) tr v ->
  stage_after NoWindow (names tr) = Some WindowClosed.
Proof.
  intros H. apply run_of_either in H. destruct H as (camera & cams & _ & -> & _).
  apply stage_after_run_calls.
Qed.

Lemma returns_with_window_closed_witness :
  stage_after NoWindow (names three_frames_cpp) = Some WindowClosed.
Proof.
  apply (@returns_with_window_closed raylib5 stale_camera three_frames_cpp 0).
  right. exact runs_three_frames_cpp.
Defined.

(** X3: wherever an execution of either program stands, it can still
    end: the calls made so far are the beginning of a run that returns 0.
    Conversely every beginning of a run is a started run. *)
Theorem can_always_be_closed {hdr : RaylibHeader} (u : Camera3D) (tr : trace) :
  (started main_c tr <-> exists rest, runs main_c (tr ++ rest) 0) /\
  (started (main_cpp u) tr <-> exists rest, runs (main_cpp u) (tr ++ rest) 0).
Proof.
  split; split.
  - intros H. apply started_main_c in H. destruct H as (cams & rest & E).
    exists rest. rewrite <- E. apply runs_main_c. eauto.
  - intros [rest H]. eapply runs_started. exact H.
  - intros H. apply started_main_cpp in H. destruct H as (cams & rest & E).
    exists rest. rewrite <- E. apply runs_main_cpp. eauto.
  - intros [rest H]. eapply runs_started. exact H.
Qed.

Lemma can_always_be_closed_witness :
  exists rest, runs (@main_c raylib5) (stopped_in_3d ++ rest) 0.
Proof.
  apply (@can_always_be_closed raylib5 stale_camera stopped_in_3d).
  exact stopped_in_3d_started.
Defined.

Lemma ends_with_last {A : Type} (x : A) (before : list A) : forall tr rest,
  tr ++ rest = before ++ [x] -> ~ In x before -> In x tr ->
  tr = before ++ [x].
Proof.
  induction before as [|y before IH]; intros tr rest E Hnot Hin.
  - destruct tr as [|c tr]; [destruct Hin|]. simpl in E. injection E as -> E.
    destruct tr; [reflexivity|discriminate].
  - destruct tr as [|c tr]; [destruct Hin|]. simpl in E. injection E as -> E.
    simpl. f_equal. apply (IH tr rest E).
    + intros H. apply Hnot. right. exact H.
    + destruct Hin as [Hy|Hin]; [|exact Hin]. exfalso. apply Hnot. left.
      exact Hy.
Qed.

Lemma In_calls_to fn c tr :
  In c tr -> name c = fn -> (1 <= count_calls fn tr)%nat.
Proof.
  intros Hin Hn. unfold count_calls, calls_to.
  assert (H : In c (filter (fun c => String.eqb (name c) fn) tr)).
  { apply filter_In. split; [exact Hin|]. rewrite Hn. apply String.eqb_refl. }
  destruct (filter (fun c => String.eqb (name c) fn) tr); [destruct H|].
  simpl. lia.
Qed.

Lemma teardown_ends_run {hdr : RaylibHeader} camera cams tr rest :
  run_calls camera cams = tr ++ rest ->
  In (Call CloseWindow tt) tr ->
  ~ In (Call CloseWindow tt)
      ((opening ++ loop_start camera cams) ++ [Call WindowShouldClose true]) /\
  tr = ((opening ++ loop_start camera cams) ++ [Call WindowShouldClose true])
         ++ [Call CloseWindow tt].
Proof.
  intros E Hin.
  assert (Hcount := count_close_run_calls camera cams).
  rewrite run_calls_start in E, Hcount.
  change [Call WindowShouldClose true; Call CloseWindow tt]
    with ([Call WindowShouldClose true] ++ [Call CloseWindow tt]) in E, Hcount.
  rewrite app_assoc in E, Hcount.
  assert (Hnot : ~ In (Call CloseWindow tt)
                   ((opening ++ loop_start camera cams)
                      ++ [Call WindowShouldClose true])).
  { intros H. apply In_calls_to with (fn := "CloseWindow") in H;
      [|reflexivity].
    unfold count_calls, calls_to in Hcount, H.
    rewrite filter_app, length_app in Hcount.
    set (n := List.length (filter _ (_ ++ [Call WindowShouldClose true]))) in *.
    simpl in Hcount. lia. }
  split; [exact Hnot|].
  eapply ends_with_last; [symmetry; exact E|exact Hnot|exact Hin].
Qed.

(** X4: at every moment of every execution of either program,
    [CloseWindow] has been called only if the poll just before it reported
    a close request, and then it is the last call: nothing is ever called
    after it. *)
Theorem teardown_only_on_request {hdr : RaylibHeader} (u : Camera3D)
    (tr : trace) :
  started main_c tr \/ started (main_cpp u) tr ->
  In (Call CloseWindow tt) tr ->
  (exists before,
     tr = before ++ [Call WindowShouldClose true; Call CloseWindow tt] /\
     ~ In (Call CloseWindow tt) before) /\
  forall rest, started main_c (tr ++ rest) \/ started (main_cpp u) (tr ++ rest) ->
               rest = [].
Proof.
  intros H Hin. apply started_of_either in H.
  destruct H as (camera & cams & rest & E).
  destruct (@teardown_ends_run _ camera cams tr rest E Hin) as [Hnot Etr].
  split.
  - exists (opening ++ loop_start camera cams). split.
    + rewrite Etr, <- !app_assoc. reflexivity.
    + intros H. apply Hnot. apply in_or_app. left. exact H.
  - intros rest' H'. apply started_of_either in H'.
    destruct H' as (camera' & cams' & rest'' & E').
    rewrite <- app_assoc in E'.
    destruct (@teardown_ends_run _ camera' cams' tr (rest' ++ rest'') E' Hin)
      as [_ Etr'].
    rewrite run_calls_start in E'.
    change [Call WindowShouldClose true; Call CloseWindow tt]
      with ([Call WindowShouldClose true] ++ [Call CloseWindow tt]) in E'.
    rewrite app_assoc, <- Etr' in E'.
    rewrite <- (app_nil_r tr) in E' at 1. apply app_inv_head in E'.
    symmetry in E'. apply app_eq_nil in E'. apply E'.
Qed.

Lemma teardown_only_on_request_witness :
  (exists before,
     closed_at_once =
       before ++ [Call WindowShouldClose true; Call CloseWindow tt] /\
     ~ In (Call CloseWindow tt) before) /\
  forall rest,
    started (@main_c raylib5) (closed_at_once ++ rest) \/
    started (@main_cpp raylib5 stale_camera) (closed_at_once ++ rest) ->
    rest = [].
Proof.
  apply (@teardown_only_on_request raylib5 stale_camera closed_at_once).
  - left. apply runs_started with (rest := []) (v := 0).
    rewrite app_nil_r. exact runs_closed_at_once.
  - simpl. auto 10.
Defined.

(* ===================================================================== *)
(** ** While the window stays open                                         *)
(* ===================================================================== *)

Section Open.
Context {hdr : RaylibHeader}.

Lemma answered_start env n : forall done camera,
  (forall j, (j < n)%nat ->
     close_requested env (List.length (polls done) + j) = false) ->
  answered_by env done
    (loop_start camera
       (cameras_of env (List.length (cameras_left done)) camera n)).
Proof.
  induction n as [|n IH]; intros done camera Hf.
  - exact I.
  - assert (H0 := Hf O ltac:(lia)). rewrite Nat.add_0_r in H0.
    cbn [cameras_of loop_start frame_calls app answered_by answer].
    rewrite H0. unfold cameras_left at 2. rewrite collect_app. simpl.
    rewrite app_nil_r. fold (cameras_left done).
    repeat (split; [reflexivity|]).
    match goal with
    | |- answered_by _ ?d _ =>
        assert (Hp : List.length (polls d) = S (List.length (polls done)))
          by (unfold polls; rewrite !collect_app, !length_app; simpl; lia);
        assert (Hc : List.length (cameras_left d)
                     = S (List.length (cameras_left done)))
          by (unfold cameras_left; rewrite !collect_app, !length_app;
              simpl; lia);
        rewrite <- Hc; apply IH; rewrite Hp
    end.
    intros j Hj. replace (S (List.length (polls done)) + j)%nat
      with (List.length (polls done) + S j)%nat by lia.
    apply Hf. lia.
Qed.

Lemma presented_loop_start camera cams :
  count_calls "EndDrawing" (opening ++ loop_start camera cams) =
  List.length cams.
Proof.
  unfold count_calls, calls_to. rewrite filter_app, length_app. simpl.
  revert camera. induction cams as [|moved cams IH]; intros camera;
    [reflexivity|].
  simpl. rewrite IH. reflexivity.
Qed.

Lemma frames_within env camera n :
  (forall k, (k < n)%nat -> close_requested env k = false) ->
  exists fuel0, forall fuel, (fuel0 <= fuel)%nat ->
    (n <= count_calls "EndDrawing"
            (calls_within fuel env [] (main_c_with camera)))%nat.
Proof.
  intros Hf.
  set (begun := opening ++ loop_start camera (cameras_of env 0 camera n)).
  assert (Hs : started (main_c_with camera) begun).
  { apply started_main_c_with. exists (cameras_of env 0 camera n).
    eexists. apply run_calls_start. }
  assert (Ha : answered_by env [] begun).
  { unfold begun, opening. simpl. repeat (split; [reflexivity|]).
    match goal with
    | |- answered_by _ ?d _ => apply (@answered_start env n d camera)
    end. simpl. exact Hf. }
  destruct (@calls_within_complete _ env _ _ Hs [] Ha) as [fuel0 E].
  simpl app in E.
  exists fuel0. intros fuel Hle.
  destruct (@calls_within_grows _ _ _ env (main_c_with camera) Hle [])
    as [more E'].
  rewrite E', E. unfold count_calls, calls_to. rewrite filter_app, length_app.
  fold (calls_to "EndDrawing" begun). fold (count_calls "EndDrawing" begun).
  unfold begun. rewrite presented_loop_start, length_cameras_of. lia.
Qed.

End Open.

(** X5: the loop does not stall.  If the first [n] polls report no close
    request, then, whatever the later polls and the camera updates do,
    either program has presented at least [n] frames once it has run long
    enough. *)
Theorem frames_keep_coming {hdr : RaylibHeader} (u : Camera3D) (env : Env)
    (n : nat) :
  (forall k, (k < n)%nat -> close_requested env k = false) ->
  exists fuel0, forall fuel, (fuel0 <= fuel)%nat ->
    (n <= count_calls "EndDrawing" (calls_within fuel env [] main_c))%nat /\
    (n <= count_calls "EndDrawing" (calls_within fuel env [] (main_cpp u)))%nat.
Proof.
  intros Hf.
  destruct (@frames_within _ env camera_c n Hf) as [f1 H1].
  destruct (@frames_within _ env (camera_cpp u) n Hf) as [f2 H2].
  exists (Nat.max f1 f2). intros fuel Hle. split.
  - apply H1. lia.
  - unfold main_cpp. rewrite main_cpp_with_loop, <- main_c_with_loop.
    apply H2. lia.
Qed.

Lemma frames_keep_coming_witness :
  exists fuel0, forall fuel, (fuel0 <= fuel)%nat ->
    (7 <= count_calls "EndDrawing"
            (calls_within fuel never_closed [] (@main_c raylib5)))%nat /\
    (7 <= count_calls "EndDrawing"
            (calls_within fuel never_closed []
               (@main_cpp raylib5 stale_camera)))%nat.
Proof.
  apply (@frames_keep_coming raylib5 stale_camera never_closed 7).
  intros k Hk. reflexivity.
Defined.

(* ===================================================================== *)
(** ** [main.cpp]: its loop and its way out                                *)
(* ===================================================================== *)

Section Cpp.
Context {hdr : RaylibHeader}.

Lemma run_calls_draws_frames camera cams n :
  List.length cams = n ->
  draws_frames_then_closes n (run_calls camera cams).
Proof.
  intros Hlen. unfold draws_frames_then_closes.
  rewrite frames_drawn_run_calls, iterations_run_calls, length_loop_frames.
  repeat split; try assumption.
  - rewrite <- iterations_run_calls.
    eapply Forall_impl; [|apply iterations_are_frames].
    intros calls [_ H]. exact H.
  - apply count_close_run_calls.
  - exists (opening ++ loop_calls camera cams). unfold run_calls.
    rewrite app_assoc. reflexivity.
Qed.

Lemma exec_main_cpp env u n :
  (forall k, (k < n)%nat -> close_requested env k = false) ->
  close_requested env n = true ->
  exists fuel0, forall fuel, (fuel0 <= fuel)%nat ->
    exec fuel env [] (main_cpp u) =
    Some (run_calls (camera_cpp u) (cameras_of env 0 (camera_cpp u) n), 0).
Proof.
  unfold main_cpp. rewrite main_cpp_with_loop, <- main_c_with_loop.
  apply exec_main_c_with.
Qed.

Lemma ends_with_true_poll camera cams :
  exists before,
    run_calls camera cams =
      before ++ [Call WindowShouldClose true; Call CloseWindow tt] /\
    polls before = repeat false (List.length cams).
Proof.
  exists (opening ++ loop_start camera cams). split; [apply run_calls_start|].
  unfold polls. rewrite collect_app. simpl. revert camera.
  induction cams as [|moved cams IH]; intros camera; [reflexivity|].
  simpl. rewrite IH. reflexivity.
Qed.

End Cpp.

(** X6: [main.cpp] draws one frame for every poll that reports no close
    request.  When of N >= 1 polls the first N-1 return false and the N-th
    returns true, it returns, and its run performs exactly N-1 full frame
    iterations and then tears the window down, once and last.  All its
    drawing is these N-1 frames: by name, its calls are the three of the
    startup, then N-1 times a poll and the nine calls of a frame, then the
    last poll and [CloseWindow]. *)
Theorem cpp_frames_are_polls_minus_one {hdr : RaylibHeader} (u : Camera3D)
    (N : nat) :
  (1 <= N)%nat ->
  (forall tr v,
     runs (main_cpp u) tr v ->
     polls tr = repeat false (N - 1) ++ [true] ->
     draws_frames_then_closes (N - 1) tr /\
     performs_frames (N - 1) tr /\
     names tr = run_names (N - 1)) /\
  (forall env,
     (forall k, (k < N - 1)%nat -> close_requested env k = false) ->
     close_requested env (N - 1) = true ->
     exists tr fuel0,
       (forall fuel, (fuel0 <= fuel)%nat ->
          exec fuel env [] (main_cpp u) = Some (tr, 0)) /\
       polls tr = repeat false (N - 1) ++ [true] /\
       draws_frames_then_closes (N - 1) tr /\
       performs_frames (N - 1) tr /\
       names tr = run_names (N - 1)).
Proof.
  intros HN.
  assert (Hshape : forall cams, List.length cams = (N - 1)%nat ->
            draws_frames_then_closes (N - 1) (run_calls (camera_cpp u) cams) /\
            performs_frames (N - 1) (run_calls (camera_cpp u) cams) /\
            names (run_calls (camera_cpp u) cams) = run_names (N - 1)).
  { intros cams Hlen. split; [|split].
    - apply run_calls_draws_frames. exact Hlen.
    - apply run_calls_performs_frames. exact Hlen.
    - rewrite names_of_run_calls, Hlen. reflexivity. }
  split.
  - intros tr v Hr Hp. apply runs_main_cpp in Hr.
    destruct Hr as (cams & -> & _). apply Hshape.
    eapply polls_fix_frames. exact Hp.
  - intros env Hf Ht.
    destruct (@exec_main_cpp _ env u _ Hf Ht) as [fuel0 He].
    exists (run_calls (camera_cpp u)
              (cameras_of env 0 (camera_cpp u) (N - 1)%nat)), fuel0.
    split; [exact He|]. split.
    + rewrite polls_run_calls, length_cameras_of. reflexivity.
    + apply Hshape. apply length_cameras_of.
Qed.

Lemma cpp_frames_are_polls_minus_one_witness :
  (1 <= 4)%nat /\
  (draws_frames_then_closes (4 - 1) three_frames_cpp /\
   performs_frames (4 - 1) three_frames_cpp /\
   names three_frames_cpp = run_names (4 - 1)) /\
  exists tr fuel0,
    (forall fuel, (fuel0 <= fuel)%nat ->
       exec fuel (close_at 3) [] (@main_cpp raylib5 stale_camera)
       = Some (tr, 0)) /\
    polls tr = repeat false (4 - 1) ++ [true] /\
    draws_frames_then_closes (4 - 1) tr /\
    performs_frames (4 - 1) tr /\
    names tr = run_names (4 - 1).
Proof.
  assert (H4 : (1 <= 4)%nat) by lia.
  destruct (@cpp_frames_are_polls_minus_one raylib5 stale_camera 4 H4)
    as [Hruns Hexec].
  split; [exact H4|]. split.
  - apply (Hruns three_frames_cpp 0);
      [exact runs_three_frames_cpp|vm_compute; reflexivity].
  - apply (Hexec (close_at 3)).
    + intros [|[|[|k]]] Hk; (reflexivity || simpl in Hk; lia).
    + reflexivity.
Defined.

(** X7: [main.cpp] returns exactly when some poll reports a close request,
    and then it returns 0, its last two calls being that poll and
    [CloseWindow], after polls that all answered false. *)
Theorem cpp_exit_only_on_close_request {hdr : RaylibHeader} (u : Camera3D) :
  (forall tr v,
     runs (main_cpp u) tr v ->
     v = 0 /\
     exists before frames,
       tr = before ++ [Call WindowShouldClose true; Call CloseWindow tt] /\
       polls before = repeat false frames) /\
  (forall env,
     (exists fuel tr v, exec fuel env [] (main_cpp u) = Some (tr, v)) <->
     (exists k, close_requested env k = true)) /\
  (forall env fuel tr v, exec fuel env [] (main_cpp u) = Some (tr, v) -> v = 0).
Proof.
  split; [|split].
  - intros tr v Hr. apply runs_main_cpp in Hr. destruct Hr as (cams & -> & ->).
    split; [reflexivity|].
    destruct (ends_with_true_poll (camera_cpp u) cams) as (before & E & Hp).
    eauto.
  - intros env. split.
    + intros (fuel & tr & v & He). apply exec_sound in He.
      destruct He as (tr' & -> & Hr & Ha). apply runs_main_cpp in Hr.
      destruct Hr as (cams & -> & _). exists (List.length cams).
      assert (H := @answered_by_polls env _ [] Ha (List.length cams) true).
      rewrite polls_run_calls, nth_error_app2, repeat_length, Nat.sub_diag in H
        by (rewrite repeat_length; lia).
      symmetry. apply H. reflexivity.
    + intros [k Hk]. apply first_close_request in Hk.
      destruct Hk as (n & Hf & Ht).
      destruct (@exec_main_cpp _ env u n Hf Ht) as [fuel0 He].
      exists fuel0. eexists. exists 0. apply He. lia.
  - intros env fuel tr v He. apply exec_sound in He.
    destruct He as (tr' & _ & Hr & _). apply runs_main_cpp in Hr.
    destruct Hr as (cams & _ & ->). reflexivity.
Qed.

Lemma cpp_exit_only_on_close_request_witness :
  (0 = 0 /\
   exists before frames,
     three_frames_cpp =
       before ++ [Call WindowShouldClose true; Call CloseWindow tt] /\
     polls before = repeat false frames) /\
  exists fuel tr v,
    exec fuel (close_at 3) [] (@main_cpp raylib5 stale_camera) = Some (tr, v).
Proof.
  destruct (@cpp_exit_only_on_close_request raylib5 stale_camera)
    as (Hruns & Hexec & _).
  split.
  - exact (Hruns three_frames_cpp 0 runs_three_frames_cpp).
  - apply (Hexec (close_at 3)). exists 3%nat. reflexivity.
Defined.

(** X8: in every iteration of every run of [main.cpp], the camera the 3D
    scope is opened with is the camera the update of that same iteration
    left behind; and the camera handed to the first update is the one the
    five assignments build, eye (5,5,5), target (0,0,0), up (0,1,0), 75
    degrees, perspective, whatever the struct held before them. *)
Theorem cpp_scope_uses_updated_camera {hdr : RaylibHeader} (u : Camera3D)
    (tr : trace) (v : Z) :
  runs (main_cpp u) tr v ->
  Forall (fun calls =>
            exists given moved update scope,
              calls_to "UpdateCamera" calls =
                [Call (UpdateCamera given CAMERA_FREE) moved] /\
              calls_to "BeginMode3D" calls = [Call (BeginMode3D moved) tt] /\
              cameras_left calls = [moved] /\
              cameras_drawn calls = [moved] /\
              first_call "UpdateCamera" (names calls) = Some update /\
              first_call "BeginMode3D" (names calls) = Some scope /\
              (update < scope)%nat)
    (iterations tr) /\
  cameras_drawn tr = cameras_left tr /\
  hd_error (cameras_given tr) =
    match cameras_left tr with
    | [] => None
    | _ :: _ =>
        Some (mkCamera3D (mkVector3 F.five F.five F.five)
                (mkVector3 F.zero F.zero F.zero)
                (mkVector3 F.zero F.one F.zero) F.seventy_five
                CAMERA_PERSPECTIVE)
    end.
Proof.
  intros H. split; [|split].
  - assert (H' : runs main_c tr v \/ runs (main_cpp u) tr v)
      by (right; exact H).
    revert H'. apply in_every_iteration. intros given moved.
    exists given, moved, 0%nat, 3%nat. repeat split. lia.
  - apply runs_main_cpp in H. destruct H as (cams & -> & _).
    rewrite cameras_drawn_run_calls, cameras_left_run_calls. reflexivity.
  - apply runs_main_cpp in H. destruct H as (cams & -> & _).
    rewrite cameras_given_run_calls, cameras_left_run_calls.
    destruct cams as [|moved cams]; reflexivity.
Qed.

Lemma cpp_scope_uses_updated_camera_witness :
  cameras_drawn three_frames_cpp = cameras_left three_frames_cpp /\
  hd_error (cameras_given three_frames_cpp) =
    Some (mkCamera3D (mkVector3 F.five F.five F.five)
            (mkVector3 F.zero F.zero F.zero)
            (mkVector3 F.zero F.one F.zero) F.seventy_five 0).
Proof.
  destruct (@cpp_scope_uses_updated_camera raylib5 stale_camera
              three_frames_cpp 0 runs_three_frames_cpp) as (_ & Hd & Hg).
  split; [exact Hd|exact Hg].
Defined.

(* ===================================================================== *)
(** ** Counting calls, and their arguments                                 *)
(* ===================================================================== *)

Section Counting.
Context {hdr : RaylibHeader}.

Lemma length_run_calls camera cams :
  List.length (run_calls camera cams) = (10 * List.length cams + 5)%nat.
Proof.
  unfold run_calls. rewrite !length_app. simpl.
  assert (H : forall c, List.length (loop_calls c cams)
                        = (10 * List.length cams + 1)%nat).
  { induction cams as [|moved cams IH]; intros c; [reflexivity|].
    simpl. rewrite IH. lia. }
  rewrite H. lia.
Qed.

Lemma count_calls_names fn tr :
  count_calls fn tr =
  List.length (filter (fun n => String.eqb n fn) (names tr)).
Proof.
  unfold count_calls, calls_to, names.
  induction tr as [|c tr IH]; [reflexivity|].
  simpl. destruct (String.eqb (name c) fn); simpl; rewrite IH; reflexivity.
Qed.

(** How often [fn] is called in a run, from how often it is called before
    the loop, in one pass with a frame, and in the last pass. *)
Lemma count_run_calls fn camera cams :
  count_calls fn (run_calls camera cams) =
  (count_calls fn opening
   + List.length cams
     * List.length (filter (fun n => String.eqb n fn)
                      ("WindowShouldClose" :: frame_names))
   + count_calls fn [Call WindowShouldClose true; Call CloseWindow tt])%nat.
Proof.
  unfold run_calls. rewrite !count_calls_names. unfold names.
  rewrite !map_app, !filter_app, !length_app, <- Nat.add_assoc. f_equal.
  revert camera. induction cams as [|moved cams IH]; intros camera.
  - cbn [loop_calls map filter name fn_name List.length Nat.mul].
    destruct (String.eqb "WindowShouldClose" fn); reflexivity.
  - specialize (IH moved). cbn [loop_calls].
    change (Call WindowShouldClose false :: frame_calls camera moved
              ++ loop_calls moved cams)
      with ((Call WindowShouldClose false :: frame_calls camera moved)
              ++ loop_calls moved cams).
    rewrite map_app, filter_app, length_app, <- Nat.add_assoc, IH.
    change (map name (Call WindowShouldClose false :: frame_calls camera moved))
      with ("WindowShouldClose" :: frame_names).
    cbn [List.length Nat.mul]. lia.
Qed.

End Counting.

(** X9: a run of either program that draws [n] frames makes [10 n + 5]
    calls: [n + 1] polls, each of the nine calls of a frame [n] times, and
    each of [SetConfigFlags], [InitWindow], [SetTargetFPS] and
    [CloseWindow] once.  The window is never created or configured again
    inside the loop, and frames are begun as often as they are ended. *)
Theorem calls_per_run {hdr : RaylibHeader} (u : Camera3D) (tr : trace) (v : Z) :
  runs main_c tr v \/ runs (main_cpp u) tr v ->
  List.length tr = (10 * frames_drawn tr + 5)%nat /\
  count_calls "WindowShouldClose" tr = S (frames_drawn tr) /\
  Forall (fun fn => count_calls fn tr = frames_drawn tr) frame_names /\
  Forall (fun fn => count_calls fn tr = 1%nat)
    ["SetConfigFlags"; "InitWindow"; "SetTargetFPS"; "CloseWindow"].
Proof.
  intros H. apply run_of_either in H. destruct H as (camera & cams & _ & -> & _).
  rewrite frames_drawn_run_calls. split; [apply length_run_calls|].
  split; [rewrite count_run_calls; unfold count_calls, calls_to; simpl; lia|].
  split; repeat constructor; rewrite count_run_calls;
    unfold count_calls, calls_to; simpl; lia.
Qed.

Lemma calls_per_run_witness :
  List.length three_frames = (10 * frames_drawn three_frames + 5)%nat /\
  count_calls "WindowShouldClose" three_frames = S (frames_drawn three_frames) /\
  Forall (fun fn => count_calls fn three_frames = frames_drawn three_frames)
    frame_names /\
  Forall (fun fn => count_calls fn three_frames = 1%nat)
    ["SetConfigFlags"; "InitWindow"; "SetTargetFPS"; "CloseWindow"].
Proof.
  apply (@calls_per_run raylib5 stale_camera three_frames 0).
  left. exact runs_three_frames.
Defined.

(** X10: at every moment of every execution of either program, every call
    made so far to a function with fixed arguments has had exactly those:
    the resizable flag, the 800x450 window titled "Raylib Test", 60 frames
    per second, the gray background, the free camera mode, and the cube,
    the grid and the label of the scene. *)
Theorem arguments_never_change {hdr : RaylibHeader} (u : Camera3D) (tr : trace) :
  started main_c tr \/ started (main_cpp u) tr ->
  forall c, In c tr ->
    (name c = "SetConfigFlags" ->
       c = Call (SetConfigFlags FLAG_WINDOW_RESIZABLE) tt) /\
    (name c = "InitWindow" -> c = Call (InitWindow 800 450 "Raylib Test") tt) /\
    (name c = "SetTargetFPS" -> c = Call (SetTargetFPS 60) tt) /\
    (name c = "ClearBackground" -> c = Call (ClearBackground GRAY) tt) /\
    (name c = "UpdateCamera" ->
       exists given moved, c = Call (UpdateCamera given CAMERA_FREE) moved) /\
    (name c = "DrawCube" -> c = the_cube) /\
    (name c = "DrawGrid" -> c = the_grid) /\
    (name c = "DrawText" -> c = the_label).
Proof.
  intros H c Hin. apply started_of_either in H.
  destruct H as (camera & cams & rest & E).
  assert (Hin' : In c (run_calls camera cams))
    by (rewrite E; apply in_or_app; left; exact Hin).
  apply In_run_calls in Hin'.
  destruct Hin' as [Ho|[(closing & ->)|[->|(given & moved & Hf)]]].
  - simpl in Ho.
    repeat (destruct Ho as [<-|Ho];
            [repeat split; intros N; (discriminate N || reflexivity)|]).
    destruct Ho.
  - repeat split; discriminate.
  - repeat split; discriminate.
  - simpl in Hf.
    repeat (destruct Hf as [<-|Hf];
            [repeat split; intros N;
             (discriminate N || reflexivity || eauto)|]).
    destruct Hf.
Qed.

Lemma arguments_never_change_witness :
  In (Call (ClearBackground (@GRAY raylib5)) tt) stopped_in_3d /\
  (name (Call (ClearBackground (@GRAY raylib5)) tt) = "ClearBackground" ->
   Call (ClearBackground (@GRAY raylib5)) tt =
   Call (ClearBackground (@GRAY raylib5)) tt).
Proof.
  assert (Hin : In (Call (ClearBackground (@GRAY raylib5)) tt) stopped_in_3d)
    by (simpl; auto 10).
  split; [exact Hin|].
  apply (@arguments_never_change raylib5 stale_camera stopped_in_3d
           (or_introl stopped_in_3d_started) _ Hin).
Defined.

(* ===================================================================== *)
(** ** At every moment: the camera                                         *)
(* ===================================================================== *)

Section Threaded.
Context {hdr : RaylibHeader}.

Lemma camera_threaded_frame camera moved tr :
  camera_threaded moved tr ->
  camera_threaded camera
    ((Call WindowShouldClose false :: frame_calls camera moved) ++ tr).
Proof.
  unfold camera_threaded, cameras_given, cameras_left, cameras_drawn.
  intros [Hg Hd]. rewrite !collect_app. simpl. rewrite Hg. split; [reflexivity|].
  destruct Hd as [->| ->]; [left; reflexivity|].
  destruct (collect camera_left tr); [left|right]; reflexivity.
Qed.

Lemma camera_threaded_loop cams : forall camera tr rest,
  tr ++ rest = loop_calls camera cams ++ [Call CloseWindow tt] ->
  camera_threaded camera tr.
Proof.
  induction cams as [|moved cams IH]; intros camera tr rest E.
  - simpl in E.
    repeat (destruct tr as [|? tr];
            [split; [reflexivity|left; reflexivity]
            |simpl in E; injection E as -> E]).
    apply app_eq_nil in E. destruct E as [-> _].
    split; [reflexivity|left; reflexivity].
  - cbn [loop_calls] in E.
    change (Call WindowShouldClose false :: frame_calls camera moved
              ++ loop_calls moved cams)
      with ((Call WindowShouldClose false :: frame_calls camera moved)
              ++ loop_calls moved cams) in E.
    rewrite <- app_assoc in E. apply app_eq_app in E.
    destruct E as [l [[-> E]|[E _]]].
    + apply camera_threaded_frame. apply (IH moved l rest). symmetry. exact E.
    + symmetry in E. simpl in E.
      repeat (destruct tr as [|? tr];
              [split; [reflexivity|(left; reflexivity) || (right; reflexivity)]
              |simpl in E; injection E as -> E]).
      apply app_eq_nil in E. destruct E as [-> _].
      split; [reflexivity|left; reflexivity].
Qed.

Lemma camera_threaded_run camera cams tr rest :
  run_calls camera cams = tr ++ rest -> camera_threaded camera tr.
Proof.
  unfold run_calls. intros E. symmetry in E. apply app_eq_app in E.
  destruct E as [l [[-> E]|[E _]]].
  - symmetry in E. apply camera_threaded_loop in E.
    destruct E as [Hg Hd]. split; [exact Hg|exact Hd].
  - symmetry in E. unfold opening in E. simpl in E.
    repeat (destruct tr as [|? tr];
            [split; [reflexivity|left; reflexivity]
            |simpl in E; injection E as -> E]).
    apply app_eq_nil in E. destruct E as [-> _].
    split; [reflexivity|left; reflexivity].
Qed.

End Threaded.

(** X11: at every moment of every execution of either program, also of
    one that never ends, the camera is threaded through the calls: each
    update is handed what the update before it left (the first, the camera
    the program built), each 3D scope is opened with what the update of
    its iteration left, and nothing else ever changes the camera. *)
Theorem camera_always_threaded {hdr : RaylibHeader} (u : Camera3D) (tr : trace) :
  (started main_c tr -> camera_threaded camera_c tr) /\
  (started (main_cpp u) tr -> camera_threaded (camera_cpp u) tr).
Proof.
  split; intros H.
  - apply started_main_c in H. destruct H as (cams & rest & E).
    eapply camera_threaded_run. exact E.
  - apply started_main_cpp in H. destruct H as (cams & rest & E).
    eapply camera_threaded_run. exact E.
Qed.

Lemma camera_always_threaded_witness :
  camera_threaded (@camera_c raylib5) stopped_in_3d.
Proof.
  destruct (@camera_always_threaded raylib5 stale_camera stopped_in_3d)
    as [H _].
  exact (H stopped_in_3d_started).
Defined.

(* ===================================================================== *)
(** ** At every moment: the close request                                  *)
(* ===================================================================== *)

Lemma In_polls c tr closing :
  In c tr -> poll_answer c = Some closing -> In closing (polls tr).
Proof.
  unfold polls. induction tr as [|c' tr IH]; intros Hin Hp; [destruct Hin|].
  simpl. destruct Hin as [->|Hin].
  - rewrite Hp. left. reflexivity.
  - destruct (poll_answer c'); [right|]; apply IH; assumption.
Qed.

Section Request.
Context {hdr : RaylibHeader}.

Lemma no_true_poll_before_last camera cams :
  ~ In (Call WindowShouldClose true) (opening ++ loop_start camera cams).
Proof.
  intros H. apply In_polls with (closing := true) in H; [|reflexivity].
  destruct (ends_with_true_poll camera cams) as (before & E & Hp).
  rewrite run_calls_start in E. apply app_inv_tail in E. subst before.
  rewrite Hp in H. apply repeat_spec in H. discriminate H.
Qed.

Lemma after_true_poll camera cams before after rest :
  run_calls camera cams = (before ++ Call WindowShouldClose true :: after) ++ rest ->
  before = opening ++ loop_start camera cams /\
  (after = [] \/ after = [Call CloseWindow tt]).
Proof.
  rewrite run_calls_start, <- (app_assoc before). intros E.
  assert (Hnot := no_true_poll_before_last camera cams).
  assert (Hafter : Call WindowShouldClose true :: after ++ rest =
                   [Call WindowShouldClose true; Call CloseWindow tt] ->
                   after = [] \/ after = [Call CloseWindow tt]).
  { intros E'. injection E' as E'.
    destruct after as [|c after]; [left; reflexivity|right].
    simpl in E'. injection E' as -> E'.
    apply app_eq_nil in E'. destruct E' as [-> _]. reflexivity. }
  apply app_eq_app in E. destruct E as [l [[E1 E2]|[E1 E2]]].
  - destruct l as [|c l].
    + rewrite app_nil_r in E1. split; [symmetry; exact E1|].
      apply Hafter. simpl in E2. exact E2.
    + exfalso. apply Hnot. rewrite E1. apply in_or_app. right.
      simpl in E2. injection E2 as <- _. left. reflexivity.
  - destruct l as [|c l].
    + rewrite app_nil_r in E1. split; [exact E1|].
      apply Hafter. simpl in E2. symmetry. exact E2.
    + exfalso. simpl in E2. injection E2 as _ E2.
      destruct l as [|c' l].
      * apply (f_equal names) in E2. discriminate E2.
      * simpl in E2. injection E2 as _ E2. destruct l; discriminate E2.
Qed.

End Request.

(** X12: at every moment of every execution of either program, a poll
    that reported a close request was the last poll: after it the loop
    body is not run again, and the only call that can follow is
    [CloseWindow]. *)
Theorem close_request_ends_loop {hdr : RaylibHeader} (u : Camera3D)
    (before after : trace) :
  started main_c (before ++ Call WindowShouldClose true :: after) \/
  started (main_cpp u) (before ++ Call WindowShouldClose true :: after) ->
  (after = [] \/ after = [Call CloseWindow tt]) /\
  ~ In true (polls before).
Proof.
  intros H. apply started_of_either in H.
  destruct H as (camera & cams & rest & E).
  apply after_true_poll in E. destruct E as [-> Hafter].
  split; [exact Hafter|].
  destruct (ends_with_true_poll camera cams) as (before' & E & Hp).
  rewrite run_calls_start in E. apply app_inv_tail in E. subst before'.
  rewrite Hp. intros Hin. apply repeat_spec in Hin. discriminate Hin.
Qed.

Lemma close_request_ends_loop_witness :
  ([Call CloseWindow tt] = [] \/ [Call CloseWindow tt] = [Call CloseWindow tt])
  /\ ~ In true
         (polls [ Call (SetConfigFlags 4) tt;
                  Call (InitWindow 800 450 "Raylib Test") tt;
                  Call (SetTargetFPS 60) tt ]).
Proof.
  apply (@close_request_ends_loop raylib5 stale_camera
           [ Call (SetConfigFlags 4) tt;
             Call (InitWindow 800 450 "Raylib Test") tt;
             Call (SetTargetFPS 60) tt ]
           [Call CloseWindow tt]).
  left. apply runs_started with (rest := []) (v := 0).
  exact runs_closed_at_once.
Defined.

(** X13: as long as no poll reports a close request the window stays
    open.  Against an environment that never asks to close, neither
    program ever calls [CloseWindow] or returns, however long it runs. *)
Theorem window_stays_open {hdr : RaylibHeader} (u : Camera3D) (env : Env) :
  (forall k, close_requested env k = false) ->
  forall fuel,
    count_calls "CloseWindow" (calls_within fuel env [] main_c) = 0%nat /\
    count_calls "CloseWindow" (calls_within fuel env [] (main_cpp u)) = 0%nat /\
    exec fuel env [] main_c = None /\
    exec fuel env [] (main_cpp u) = None.
Proof.
  intros Hf fuel.
  assert (Hopen : forall camera,
            count_calls "CloseWindow"
              (calls_within fuel env [] (main_c_with camera)) = 0%nat).
  { intros camera.
    destruct (calls_within_sound fuel env (main_c_with camera) [])
      as (tr & E & Hs & Ha).
    simpl app in E. rewrite E.
    destruct (count_calls "CloseWindow" tr) as [|n] eqn:Hn; [reflexivity|].
    exfalso.
    assert (Hin : In (Call CloseWindow tt) tr).
    { unfold count_calls, calls_to in Hn.
      destruct (filter (fun c => String.eqb (name c) "CloseWindow") tr)
        as [|c l] eqn:Hfl; [discriminate Hn|].
      assert (Hc : In c (c :: l)) by (left; reflexivity).
      rewrite <- Hfl in Hc. apply filter_In in Hc. destruct Hc as [Hc Hname].
      destruct c as [X e ans]. destruct e; try discriminate Hname.
      destruct ans. exact Hc. }
    apply started_main_c_with in Hs. destruct Hs as (cams & rest & Er).
    destruct (@teardown_ends_run _ camera cams tr rest Er Hin) as [_ Etr].
    assert (Hp := @answered_by_polls env tr [] Ha (List.length cams) true).
    rewrite Hf in Hp. discriminate Hp.
    rewrite Etr. unfold polls. rewrite !collect_app.
    destruct (ends_with_true_poll camera cams) as (before & Eb & Hb).
    rewrite run_calls_start in Eb. apply app_inv_tail in Eb. subst before.
    unfold polls in Hb. rewrite collect_app in Hb. rewrite Hb. simpl.
    rewrite app_nil_r, nth_error_app2, repeat_length, Nat.sub_diag
      by (rewrite repeat_length; lia).
    reflexivity. }
  assert (Hnone : forall camera, exec fuel env [] (main_c_with camera) = None).
  { intros camera. apply exec_main_c_with_forever. exact Hf. }
  repeat split.
  - apply Hopen.
  - unfold main_cpp. rewrite main_cpp_with_loop, <- main_c_with_loop.
    apply Hopen.
  - apply Hnone.
  - unfold main_cpp. rewrite main_cpp_with_loop, <- main_c_with_loop.
    apply Hnone.
Qed.

Lemma window_stays_open_witness :
  count_calls "CloseWindow"
    (calls_within 200 never_closed [] (@main_c raylib5)) = 0%nat /\
  count_calls "CloseWindow"
    (calls_within 200 never_closed [] (@main_cpp raylib5 stale_camera)) = 0%nat /\
  exec 200 never_closed [] (@main_c raylib5) = None /\
  exec 200 never_closed [] (@main_cpp raylib5 stale_camera) = None.
Proof.
  apply (@window_stays_open raylib5 stale_camera never_closed).
  intros k. reflexivity.
Defined.
